(** * vivid-ai: the outline store, the ordered list editor and the
      debounced auto-save, embedded and verified.

    Part I embeds the TypeScript sources:
    - [JsArray]    the Array.prototype methods the handlers call;
    - [App]        the zustand store [useCreativeAIStore] together with the
                   React state of [CreateAI] and [CardList];
    - [CardList]   create-page/_components/common/CardList.tsx;
    - [CreativeAI] create-page/_components/GenerateAI/CreativeAI.tsx;
    - [Editor]     presentation/[presentationId]/_components/editor/Editor.tsx
                   (the auto-save effect and its timer);
    - [Reference]  the list operations in the specification's words;
    - [Samples]    the scenarios of the specification as data.
    Part II states and proves the properties. *)

From Stdlib Require Import ZArith QArith Lia.
From stdpp Require Import base decidable option list strings.

Local Open Scope Z_scope.

(* ===================================================================== *)
(** * Part I: the embedding                                               *)
(* ===================================================================== *)

(** ** Array.prototype methods (ECMAScript semantics on integer arguments) *)

Module JsArray.

(** Relative index resolution shared by [slice] and [splice]: a negative
    index counts from the end, and the result is clamped to [0, len]. *)
Definition relative (len k : Z) : Z :=
  if k <? 0 then Z.max (len + k) 0 else Z.min k len.

(** [arr.slice(start, end)]; [end_ = None] is an omitted second argument. *)
Definition slice {A} (start : Z) (end_ : option Z) (arr : list A) : list A :=
  let len := Z.of_nat (length arr) in
  let k := relative len start in
  let final := match end_ with
               | None => len
               | Some e => relative len e
               end in
  take (Z.to_nat (Z.max (final - k) 0)) (drop (Z.to_nat k) arr).

(** [arr.splice(start, deleteCount, ...items)]: the pair of the removed
    elements (the return value) and the array after the in-place update. *)
Definition splice {A} (start deleteCount : Z) (items : list A) (arr : list A)
  : list A * list A :=
  let len := Z.of_nat (length arr) in
  let k := relative len start in
  let dc := Z.min (Z.max deleteCount 0) (len - k) in
  (take (Z.to_nat dc) (drop (Z.to_nat k) arr),
   take (Z.to_nat k) arr ++ items ++ drop (Z.to_nat (k + dc)) arr).

(** [arr.findIndex(p)]: the first index whose element satisfies [p],
    or -1. *)
Definition findIndex {A} (P : A → Prop) `{!∀ x, Decision (P x)}
    (arr : list A) : Z :=
  match list_find P arr with
  | Some (i, _) => Z.of_nat i
  | None => -1
  end.

(** [arr.map((x, index) => f index x)], the callback seeing the index as a
    JS number. *)
Definition mapi {A B} (f : Z → A → B) (arr : list A) : list B :=
  imap (λ i x, f (Z.of_nat i) x) arr.

End JsArray.

(** ** Data model *)

(** Modelled from the spec: the type [OutlineCard] of [@/lib/types], whose
    declaration is not among the sources. Section 3 of the specification
    gives it the fields [id], [title] and [order], the three the components
    read and write. *)
Record OutlineCard := mkCard {
  id : string;
  title : string;
  order : Z
}.

#[global] Instance OutlineCard_eq_dec : EqDecision OutlineCard.
Proof. solve_decision. Defined.

(** [{...card, order: n}] *)
Definition with_order (card : OutlineCard) (n : Z) : OutlineCard :=
  mkCard (id card) (title card) n.

(** [{...card, title: t}] *)
Definition with_title (card : OutlineCard) (t : string) : OutlineCard :=
  mkCard (id card) t (order card).

(** Modelled from the spec: the prompt record of section 3, with the four
    fields [handleGenerate] fills in (CreativeAI.tsx, lines 101-106). *)
Record PromptRecord := mkPrompt {
  prompt_id : string;
  prompt_title : string;
  prompt_outlines : list OutlineCard;
  createdAt : string
}.

(** What the handlers do to the outside world, in the order they do it:
    toasts, the server actions, the router, and the calls into the stores
    [useSlideStore] and [usePromtStore], which are not among the sources. *)
Inductive Effect :=
| ToastError (heading description : string)
| ToastSuccess (heading description : string)
| CallGenerateCreativePrompt (prompt : string) (count : Z)
| CallCreateProject (title_ : string) (cards : list OutlineCard)
| RouterPush (url : string)
| SetProject (projectId : string)
| AddPrompt (record : PromptRecord)
| ConsoleLog.

(** ** Application state

    The zustand store [useCreativeAIStore] (fields [currentAiPrompt] and
    [outlines]), the [useState] cells of [CreateAI] and of [CardList], and
    the log of effects. *)

Record App := mkApp {
  currentAiPrompt : string;
  outlines : list OutlineCard;
  editingCard : option string;
  isGenerating : bool;
  editText : string;
  selectedCard : option string;
  noOfCards : Z;
  dragOverIndex : option Z;
  draggedItem : option OutlineCard;
  effects : list Effect
}.

(** *** useCreativeAIStore (src/unnamed/part_000) *)

Definition setCurrentAiPrompt (prompt : string) (s : App) : App :=
  mkApp prompt (outlines s) (editingCard s) (isGenerating s)
        (editText s) (selectedCard s) (noOfCards s) (dragOverIndex s)
        (draggedItem s) (effects s).

Definition set_outlines (cards : list OutlineCard) (s : App) : App :=
  mkApp (currentAiPrompt s) cards (editingCard s) (isGenerating s)
        (editText s) (selectedCard s) (noOfCards s) (dragOverIndex s)
        (draggedItem s) (effects s).

(** [set((state) => ({outlines: [outline, ...state.outlines]}))] *)
Definition addOutline (outline : OutlineCard) (s : App) : App :=
  set_outlines (outline :: outlines s) s.

(** [set(() => ({outlines: [...outlines]}))] *)
Definition addMultipleOutlines (cards : list OutlineCard) (s : App) : App :=
  set_outlines cards s.

(** [set({outlines: []})]: zustand merges the partial object, so every
    other field of the store keeps its value. *)
Definition resetOutlines (s : App) : App :=
  set_outlines [] s.

(** The store as [create] builds it. *)
Definition initialApp : App :=
  mkApp "" [] None false "" None 0 None None [].

(** *** The [useState] setters *)

Definition setEditingCard (v : option string) (s : App) : App :=
  mkApp (currentAiPrompt s) (outlines s) v (isGenerating s)
        (editText s) (selectedCard s) (noOfCards s) (dragOverIndex s)
        (draggedItem s) (effects s).

Definition setIsGenerating (v : bool) (s : App) : App :=
  mkApp (currentAiPrompt s) (outlines s) (editingCard s) v
        (editText s) (selectedCard s) (noOfCards s) (dragOverIndex s)
        (draggedItem s) (effects s).

Definition setEditText (v : string) (s : App) : App :=
  mkApp (currentAiPrompt s) (outlines s) (editingCard s)
        (isGenerating s) v (selectedCard s) (noOfCards s) (dragOverIndex s)
        (draggedItem s) (effects s).

Definition setSelectedCard (v : option string) (s : App) : App :=
  mkApp (currentAiPrompt s) (outlines s) (editingCard s)
        (isGenerating s) (editText s) v (noOfCards s) (dragOverIndex s)
        (draggedItem s) (effects s).

Definition setNoOfCards (v : Z) (s : App) : App :=
  mkApp (currentAiPrompt s) (outlines s) (editingCard s)
        (isGenerating s) (editText s) (selectedCard s) v (dragOverIndex s)
        (draggedItem s) (effects s).

Definition setDragOverIndex (v : option Z) (s : App) : App :=
  mkApp (currentAiPrompt s) (outlines s) (editingCard s)
        (isGenerating s) (editText s) (selectedCard s) (noOfCards s) v
        (draggedItem s) (effects s).

Definition setDraggedItem (v : option OutlineCard) (s : App) : App :=
  mkApp (currentAiPrompt s) (outlines s) (editingCard s)
        (isGenerating s) (editText s) (selectedCard s) (noOfCards s)
        (dragOverIndex s) v (effects s).

(** Append one effect to the log. *)
Definition emit (e : Effect) (s : App) : App :=
  mkApp (currentAiPrompt s) (outlines s) (editingCard s)
        (isGenerating s) (editText s) (selectedCard s) (noOfCards s)
        (dragOverIndex s) (draggedItem s) (effects s ++ [e]).

(** ** CardList.tsx: the ordered list editor

    Every handler is a closure of one render: it reads the state [s] of that
    render and issues setter calls, which are applied in sequence. *)

Module CardList.
Import JsArray.

(** The part of a [React.DragEvent] the handlers read: the pointer's
    [clientY] and the [getBoundingClientRect()] of [currentTarget].
    Pixel coordinates are taken as rationals. *)
Record DragEvent := mkDragEvent {
  clientY : Q;
  rect_top : Q;
  rect_height : Q;
  rect_bottom : Q
}.

(** [(card, index) => ({...card, order: index + 1})] *)
Definition renumber (index : Z) (card : OutlineCard) : OutlineCard :=
  with_order card (index + 1).

(** lines 27-40 *)
Definition onDragOver (e : DragEvent) (index : Z) (s : App) : App :=
  match draggedItem s with
  | None => s
  | Some _ =>
      let y := (clientY e - rect_top e)%Q in
      let threshhold := (rect_height e / 2)%Q in
      if Qlt_le_dec y threshhold
      then setDragOverIndex (Some index) s
      else setDragOverIndex (Some (index + 1)) s
  end.

(** lines 141-146: the container's own [onDragOver]. *)
Definition onContainerDragOver (e : DragEvent) (s : App) : App :=
  let len := Z.of_nat (length (outlines s)) in
  if decide (len = 0) then onDragOver e len s
  else if Qlt_le_dec (rect_bottom e - 20)%Q (clientY e)
       then onDragOver e len s
       else s.

(** lines 42-57. [removeCard] is the first element of the array that
    [splice(draggedIndex, 1)] returns; were that array empty the source
    would carry [undefined] on, a case [findIndex] rules out (lemma
    [splice_found_removes_one]) and which is left as the identity here. *)
Definition onDrop (s : App) : App :=
  match draggedItem s, dragOverIndex s with
  | Some item, Some over =>
      let updatedCards := outlines s in
      let draggedIndex :=
        findIndex (λ card, id card = id item) updatedCards in
      if decide (draggedIndex = -1 ∨ draggedIndex = over) then s
      else
        let '(removed, updatedCards1) :=
          splice draggedIndex 1 [] updatedCards in
        match removed with
        | removeCard :: _ =>
            let '(_, updatedCards2) :=
              splice (if over >? draggedIndex then over - 1 else over)
                     0 [removeCard] updatedCards1 in
            setDragOverIndex None
              (setDraggedItem None
                 (addMultipleOutlines (mapi renumber updatedCards2) s))
        | [] => s
        end
  | _, _ => s
  end.

(** lines 58-65 *)
Definition onCardUpdate (id0 newTitle : string) (s : App) : App :=
  setEditText ""
    (setSelectedCard None
       (setEditingCard None
          (addMultipleOutlines
             ((λ card, if decide (id card = id0)
                       then with_title card newTitle else card)
                <$> outlines s) s))).

(** lines 66-70 *)
Definition onCardDelete (id0 : string) (s : App) : App :=
  addMultipleOutlines
    (mapi renumber (filter (λ card, id card ≠ id0) (outlines s))) s.

(** lines 71-85, the synchronous part: only [setDraggedItem] touches the
    state; the rest builds the drag image. *)
Definition onDragStart (card : OutlineCard) (s : App) : App :=
  setDraggedItem (Some card) s.

(** lines 86-89, the [setTimeout(..., 0)] callback; [closure] is the
    render whose [outlines] the callback captured. *)
Definition onDragStart_timeout (closure : App) (card : OutlineCard)
    (s : App) : App :=
  setDragOverIndex
    (Some (findIndex (λ c, id c = id card) (outlines closure))) s.

(** lines 91-94 *)
Definition onDragEnd (s : App) : App :=
  setDragOverIndex None (setDraggedItem None s).

(** line 119: [editText || 'New Section'] *)
Definition titleOrDefault (s : App) : string :=
  if decide (editText s = "") then "New Section" else editText s.

(** lines 116-133. [newId] stands for
    [Math.random().toString(36).substr(2,9)]; [index = None] is the
    omitted argument. *)
Definition onAddCard (newId : string) (index : option Z) (s : App) : App :=
  let len := Z.of_nat (length (outlines s)) in
  let newCard :=
    mkCard newId (titleOrDefault s)
           ((match index with Some i => i + 1 | None => len end) + 1) in
  let updatedCards :=
    match index with
    | Some i =>
        slice 0 (Some (i + 1)) (outlines s)
        ++ [newCard]
        ++ ((λ card, with_order card (order card + 1))
              <$> slice (i + 1) None (outlines s))
    | None => outlines s ++ [newCard]
    end in
  setEditText "" (addMultipleOutlines updatedCards s).

(** The events of the component. [EvAddCard] is the click on the
    [AddCartButton] rendered after the card at [index] (line 177). *)
Inductive Event :=
| EvDragStart (card : OutlineCard)
| EvDragStartTimeout (closure : App) (card : OutlineCard)
| EvDragOver (e : DragEvent) (index : Z)
| EvContainerDragOver (e : DragEvent)
| EvDrop
| EvDragEnd
| EvCardUpdate (id0 newTitle : string)
| EvCardDelete (id0 : string)
| EvAddCard (newId : string) (index : option Z).

Definition step (s : App) (ev : Event) : App :=
  match ev with
  | EvDragStart card => onDragStart card s
  | EvDragStartTimeout closure card => onDragStart_timeout closure card s
  | EvDragOver e index => onDragOver e index s
  | EvContainerDragOver e => onContainerDragOver e s
  | EvDrop => onDrop s
  | EvDragEnd => onDragEnd s
  | EvCardUpdate id0 newTitle => onCardUpdate id0 newTitle s
  | EvCardDelete id0 => onCardDelete id0 s
  | EvAddCard newId index => onAddCard newId index s
  end.

(** An add button exists only for the cards that are rendered
    ([outlines.map((card, index) => ...)], lines 152-177), so the anchor of
    a click is the index of a card of the current list. Every other event
    can arrive in any state. *)
Definition enabled (s : App) (ev : Event) : bool :=
  match ev with
  | EvAddCard _ (Some i) =>
      bool_decide (0 ≤ i < Z.of_nat (length (outlines s)))
  | _ => true
  end.

(** The states after each event of a run. *)
Fixpoint trace (evs : list Event) (s : App) : list App :=
  match evs with
  | [] => []
  | ev :: evs' => let s' := step s ev in s' :: trace evs' s'
  end.

Fixpoint admissible (evs : list Event) (s : App) : bool :=
  match evs with
  | [] => true
  | ev :: evs' => enabled s ev && admissible evs' (step s ev)
  end.

(** The [order] fields are 1, 2, ..., N in array order. *)
Definition contiguous (cards : list OutlineCard) : Prop :=
  order <$> cards = (λ i, Z.of_nat i + 1) <$> seq 0 (length cards).

End CardList.

(** ** CreativeAI.tsx: the page around the list *)

Module CreativeAI.
Import JsArray.

(** What [await generateCreativePrompt(...)] yields: a rejected promise or
    a response object; [gen_outlines = None] is a response whose
    [data?.outlines] is missing. *)
Inductive GenerateResult :=
| GenerateRejected
| GenerateResolved (status : Z) (gen_outlines : option (list string)).

(** What [await createProject(...)] yields; [data] carries the id of the
    created project. *)
Inductive CreateResult :=
| CreateRejected
| CreateResolved (status : Z) (data : option string).

(** lines 39-45 *)
Definition resetCards (s : App) : App :=
  resetOutlines
    (setCurrentAiPrompt ""
       (setEditText "" (setSelectedCard None (setEditingCard None s)))).

(** lines 47-82. [v4 idx] is the identifier the [idx]-th call of [v4()]
    returns; the continuation after [await] runs on the state the first
    part left. A rejected promise leaves the function at the [await]. *)
Definition generateOutline (v4 : Z → string) (res : GenerateResult)
    (s : App) : App :=
  if decide (currentAiPrompt s = "") then
    emit (ToastError "Error"
            "Please enter a prompt to  generate an outline.") s
  else
    let s1 := setIsGenerating true s in
    let s2 :=
      emit (CallGenerateCreativePrompt (currentAiPrompt s) (noOfCards s))
           s1 in
    let failure :=
      emit (ToastError "Error"
              "Failed to generate outline. Please try again .") s2 in
    match res with
    | GenerateRejected => s2
    | GenerateResolved status (Some titles) =>
        setIsGenerating false
          (if decide (status = 200) then
             let cardsData :=
               mapi (λ idx outline, mkCard (v4 idx) outline (idx + 1))
                    titles in
             emit (ToastSuccess "Success" "Outlines generated successfully")
               (setNoOfCards (Z.of_nat (length cardsData))
                  (addMultipleOutlines cardsData s2))
           else failure)
    | GenerateResolved _ None => setIsGenerating false failure
    end.

(** [currentAiPrompt || outlines?.[0]?.title] *)
Definition promptTitle (s : App) : string :=
  if decide (currentAiPrompt s = "") then
    match outlines s with
    | card :: _ => title card
    | [] => ""
    end
  else currentAiPrompt s.

(** lines 85-124. [newId] is the result of [v4()], [now] that of
    [new Date().toISOString()]. The early [return] of the validation sits
    before the [try], so the [finally] block does not run for it. *)
Definition handleGenerate (newId now : string) (res : CreateResult)
    (s : App) : App :=
  let s1 := setIsGenerating true s in
  if decide (length (outlines s) = 0%nat) then
    emit (ToastError "ERROR"
            "Please add at least one card to generate slides") s1
  else
    let s2 :=
      emit (CallCreateProject (currentAiPrompt s)
              (slice 0 (Some (noOfCards s)) (outlines s))) s1 in
    let caught :=
      emit (ToastError "Error" "Failed to create project")
           (emit ConsoleLog s2) in
    let s3 :=
      match res with
      | CreateResolved status (Some projectId) =>
          if decide (status = 200) then
            resetOutlines
              (setCurrentAiPrompt ""
                 (emit (ToastSuccess "Success"
                          "Project created successfully! ")
                    (emit
                       (AddPrompt
                          (mkPrompt newId (promptTitle s) (outlines s) now))
                       (emit (SetProject projectId)
                          (emit (RouterPush
                                   ("/presentation/" +:+ projectId
                                      +:+ "/select-theme"))
                                s2)))))
          else caught
      | _ => caught
      end in
    setIsGenerating false s3.

(** lines 126-128: [useEffect(() => setNoOfCards(outlines.length),
    [outlines.length])]. [prev] is the previously committed render, [None]
    on mount; the effect runs when the dependency differs from it. *)
Definition syncNoOfCards (prev : option App) (s : App) : App :=
  match prev with
  | Some p =>
      if decide (length (outlines p) = length (outlines s)) then s
      else setNoOfCards (Z.of_nat (length (outlines s))) s
  | None => setNoOfCards (Z.of_nat (length (outlines s))) s
  end.

(** line 157: the select's [onValueChange], [num] being [parseInt(value)]
    for one of the six items. *)
Definition onValueChange (num : Z) (s : App) : App :=
  setNoOfCards num s.

(** The effects that are a [createProject] request. *)
Definition isCreateCall (e : Effect) : Prop :=
  match e with
  | CallCreateProject _ _ => True
  | _ => False
  end.



End CreativeAI.

(** ** Editor.tsx: the debounced auto-save (lines 211-227) *)

Module Editor.

(** The quiet period of the [setTimeout] call, in milliseconds. *)
Definition quietPeriod : Z := 2000.

Section WithSlides.
Variable Slide : Type.

(** The values one render of [Editor] closes over. *)
Record Render := mkRender {
  slides : list Slide;
  isEditable : bool;
  project : option string
}.

(** A pending browser timer: its handle, the time it is due, and the
    render whose [saveSlides] its callback [() => saveSlides()] calls. *)
Record Timer := mkTimer {
  handle : positive;
  due : Z;
  closure : Render
}.

(** One [updateSlides(project.id, slides)] request. *)
Record SaveCall := mkSaveCall {
  firedAt : Z;
  projectId : string;
  payload : list Slide
}.

Record World := mkWorld {
  now : Z;
  timers : list Timer;
  nextHandle : positive;
  autoSaveTimeoutRef : option positive;
  calls : list SaveCall
}.

Definition mounted : World := mkWorld 0 [] 1%positive None [].

(** [setTimeout(cb, delay)]: a fresh non-zero handle. *)
Definition setTimeout (r : Render) (delay : Z) (w : World)
  : positive * World :=
  (nextHandle w,
   mkWorld (now w)
           (timers w ++ [mkTimer (nextHandle w) (now w + delay) r])
           (Pos.succ (nextHandle w)) (autoSaveTimeoutRef w) (calls w)).

(** [clearTimeout(h)]: a handle that is not pending is ignored. *)
Definition clearTimeout (h : positive) (w : World) : World :=
  mkWorld (now w) (filter (λ tm, handle tm ≠ h) (timers w))
          (nextHandle w) (autoSaveTimeoutRef w) (calls w).

Definition set_ref (h : positive) (w : World) : World :=
  mkWorld (now w) (timers w) (nextHandle w) (Some h) (calls w).

(** lines 211-217, called at time [t] from the closure [r]. *)
Definition saveSlides (t : Z) (r : Render) (cs : list SaveCall)
  : list SaveCall :=
  match isEditable r, project r with
  | true, Some pid => cs ++ [mkSaveCall t pid (slides r)]
  | _, _ => cs
  end.

(** [if (autoSaveTimeoutRef.current) clearTimeout(...)]; the ref keeps
    the handle. *)
Definition clearPending (w : World) : World :=
  match autoSaveTimeoutRef w with
  | Some h => clearTimeout h w
  | None => w
  end.

(** lines 219-223: the effect body for the render [r]. *)
Definition effect (r : Render) (w : World) : World :=
  let w1 := clearPending w in
  if isEditable r then
    let '(h, w2) := setTimeout r quietPeriod w1 in set_ref h w2
  else w1.

(** lines 224-226: the cleanup the effect returns. *)
Definition cleanup (w : World) : World := clearPending w.

(** Timers fire in the order of their due times, earlier handle first
    among equals. *)
Fixpoint insertTimer (tm : Timer) (q : list Timer) : list Timer :=
  match q with
  | [] => [tm]
  | tm' :: q' =>
      if due tm <? due tm' then tm :: q
      else if (due tm =? due tm') && (handle tm <? handle tm')%positive
           then tm :: q
           else tm' :: insertTimer tm q'
  end.

Definition fireOrder (q : list Timer) : list Timer :=
  foldr insertTimer [] q.

(** The clock reaches [t]: every timer due by then has fired, at its due
    time. The callbacks start no timers. *)
Definition advance (t : Z) (w : World) : World :=
  let ready := fireOrder (filter (λ tm, due tm ≤ t) (timers w)) in
  mkWorld (Z.max t (now w))
          (filter (λ tm, ¬ due tm ≤ t) (timers w))
          (nextHandle w) (autoSaveTimeoutRef w)
          (foldl (λ cs tm, saveSlides (due tm) (closure tm) cs)
                 (calls w) ready).

(** The life of the component: a committed render whose dependencies
    [slides, isEditable, project] changed (the first one is the mount),
    time passing, and the unmount. Before an event at time [t] the timers
    due by [t] have fired. A commit runs the cleanup of the effect before
    it and then the effect; on mount there is none to clean up, and the
    cleanup, finding the ref empty, does nothing. *)
Inductive Event :=
| Commit (t : Z) (r : Render)
| Idle (t : Z)
| Unmount (t : Z).

Definition step (w : World) (ev : Event) : World :=
  match ev with
  | Commit t r => effect r (cleanup (advance t w))
  | Idle t => advance t w
  | Unmount t => cleanup (advance t w)
  end.

Definition run (evs : list Event) (w : World) : World :=
  foldl step w evs.

(** A burst of changes: the committed renders with their times. *)
Definition commits (changes : list (Z * Render)) : list Event :=
  (λ c, Commit c.1 c.2) <$> changes.

(** The last change of the burst that starts with [first]. *)
Fixpoint final (first : Z * Render) (rest : list (Z * Render))
  : Z * Render :=
  match rest with
  | [] => first
  | next :: rest' => final next rest'
  end.

(** Every change arrives before the quiet period of the one before it
    has elapsed. *)
Fixpoint chained (t : Z) (rest : list (Z * Render)) : Prop :=
  match rest with
  | [] => True
  | next :: rest' =>
      (t ≤ next.1 < t + quietPeriod) ∧ chained next.1 rest'
  end.

(** At most one timer is pending, and the ref holds its handle. *)
Definition tidy (w : World) : Prop :=
  match timers w with
  | [] => True
  | [tm] => autoSaveTimeoutRef w = Some (handle tm)
  | _ => False
  end.

(** Nothing is due by time [t], which the clock has not passed. *)
Definition quietUntil (t : Z) (w : World) : Prop :=
  now w ≤ t ∧ Forall (λ tm, t < due tm) (timers w).

End WithSlides.

Arguments mkRender {Slide}.
Arguments slides {Slide}.
Arguments isEditable {Slide}.
Arguments project {Slide}.
Arguments mkTimer {Slide}.
Arguments handle {Slide}.
Arguments due {Slide}.
Arguments closure {Slide}.
Arguments mkSaveCall {Slide}.
Arguments firedAt {Slide}.
Arguments projectId {Slide}.
Arguments payload {Slide}.
Arguments mkWorld {Slide}.
Arguments now {Slide}.
Arguments timers {Slide}.
Arguments nextHandle {Slide}.
Arguments autoSaveTimeoutRef {Slide}.
Arguments calls {Slide}.
Arguments mounted {Slide}.
Arguments setTimeout {Slide}.
Arguments clearTimeout {Slide}.
Arguments set_ref {Slide}.
Arguments saveSlides {Slide}.
Arguments clearPending {Slide}.
Arguments effect {Slide}.
Arguments cleanup {Slide}.
Arguments insertTimer {Slide}.
Arguments fireOrder {Slide}.
Arguments advance {Slide}.
Arguments Commit {Slide}.
Arguments Idle {Slide}.
Arguments Unmount {Slide}.
Arguments step {Slide}.
Arguments run {Slide}.
Arguments commits {Slide}.
Arguments final {Slide}.
Arguments chained {Slide}.
Arguments tidy {Slide}.
Arguments quietUntil {Slide}.

End Editor.

(** ** The list operations as the specification words them

    Written from the specification's sentences, to be compared with what the
    handlers compute. *)

Module Reference.

(** "Re-number every item's [order] field to its new 1-based array
    position": the first card gets [n], the next [n + 1], and so on. *)
Fixpoint renumberFrom (n : Z) (cards : list OutlineCard)
  : list OutlineCard :=
  match cards with
  | [] => []
  | card :: rest => with_order card n :: renumberFrom (n + 1) rest
  end.

(** "Remove the item from its source position and insert at the target
    position, adjusting the target index downward by one when the target
    was computed after the removal point." *)
Definition moveItem (i j : nat) (cards : list OutlineCard)
  : list OutlineCard :=
  match cards !! i with
  | Some card =>
      let rest := delete i cards in
      let target := if (i <? j)%nat then (j - 1)%nat else j in
      take target rest ++ card :: drop target rest
  | None => cards
  end.

(** What a move, an insert or a delete must not change of a card. *)
Definition identity (card : OutlineCard) : string * string :=
  (id card, title card).

End Reference.

(** ** Sample data: the scenarios of the specification *)

Module Samples.
Import CardList.

Definition card_a := mkCard "a" "Intro" 1.
Definition card_b := mkCard "b" "Body" 2.
Definition card_c := mkCard "c" "Close" 3.
Definition abc : App := set_outlines [card_a; card_b; card_c] initialApp.

Definition card_x := mkCard "x" "First" 1.
Definition card_y := mkCard "y" "Second" 2.
Definition card_z := mkCard "z" "Third" 3.
Definition xy : App := set_outlines [card_x; card_y] initialApp.
Definition xyz : App := set_outlines [card_x; card_y; card_z] initialApp.

(** A pointer 50px below the top of an 80px card: its lower half. *)
Definition lowerHalf : DragEvent := mkDragEvent 150 100 80 180.

(** [a] picked up and held over the lower half of [b]. *)
Definition a_over_b : App :=
  onDragOver lowerHalf 1 (onDragStart card_a abc).

(** [a] picked up and held over its own slot. *)
Definition a_over_a : App :=
  setDragOverIndex (Some 0) (onDragStart card_a abc).

(** [a] picked up, then the list replaced by one without it. *)
Definition a_gone : App :=
  set_outlines [card_b; card_c]
    (setDragOverIndex (Some 1) (onDragStart card_a abc)).

(** One editing session from the empty list. *)
Definition session : list Event :=
  [ EvAddCard "p" None; EvAddCard "q" (Some 0); EvAddCard "r" (Some 0);
    EvDragStart (mkCard "p" "New Section" 1); EvDragOver lowerHalf 2;
    EvDrop; EvDragEnd; EvCardDelete "r"; EvCardUpdate "q" "Agenda" ].

(** Three cards in the store, the counter turned down to two. *)
Definition counted : App := setNoOfCards 2 xyz.

(** A prompt typed into the empty store. *)
Definition prompted : App := setCurrentAiPrompt "Quarterly review" initialApp.

(** The three changes of the debounce scenario, slides as numbers. *)
Definition burst : list (Z * Editor.Render nat) :=
  [ (0, Editor.mkRender [1%nat] true (Some "deck"));
    (500, Editor.mkRender [1%nat; 2%nat] true (Some "deck"));
    (700, Editor.mkRender [1%nat; 2%nat; 3%nat] true (Some "deck")) ].

End Samples.

(** ** CardList.tsx: the drop indicator (lines 96-114) *)

Module CardListStyles.

(** The three style objects [getDragOverStyles] returns: [{}], the one with
    [borderTop] and the one with [borderBottom]. *)
Inductive DragOverStyle :=
| NoStyle
| BorderTop
| BorderBottom.

Definition getDragOverStyles (cardIndex : Z) (s : App) : DragOverStyle :=
  match dragOverIndex s, draggedItem s with
  | Some over, Some _ =>
      if decide (cardIndex = over) then BorderTop
      else if decide (cardIndex = over - 1) then BorderBottom
      else NoStyle
  | _, _ => NoStyle
  end.

(** The styles of the rendered cards, [outlines.map((card, index) => ...
    getDragOverStyles(index))] (line 175). *)
Definition renderedStyles (s : App) : list DragOverStyle :=
  JsArray.mapi (λ index _, getDragOverStyles index s) (outlines s).

End CardListStyles.

(** ** The page switch (src/unnamed/part_001) and RecentPrompt.tsx

    [usePromtStore] is not among the sources: its [page] is a cell of the
    state here, and its [prompts] is an argument of [handleEdit]. *)

Module Pages.

Record PageState := mkPageState {
  page : string;
  app : App
}.

(** The component [renderStep] returns. *)
Inductive Step :=
| StepCreatePage
| StepScratchPage
| StepCreateAI.

(** part_001, lines 32-43; [None] is the [default: return null]. *)
Definition renderStep (ps : PageState) : option Step :=
  if decide (page ps = "create") then Some StepCreatePage
  else if decide (page ps = "create-scratch") then Some StepScratchPage
  else if decide (page ps = "creative-ai") then Some StepCreateAI
  else None.

(** part_001, lines 15-17 *)
Definition handleBack (ps : PageState) : PageState :=
  mkPageState "create" (app ps).

(** part_001, lines 21-31 *)
Definition handleSelectOption (option : string) (ps : PageState)
  : PageState :=
  if decide (option = "template") then
    mkPageState (page ps) (emit (RouterPush "/templates") (app ps))
  else if decide (option = "create-scratch") then
    mkPageState "create-scratch" (app ps)
  else mkPageState "creative-ai" (app ps).

(** [prompts.find((prompt) => prompt?.id === id)] *)
Definition findPrompt (prompts : list PromptRecord) (id0 : string)
  : option PromptRecord :=
  snd <$> list_find (λ p, prompt_id p = id0) prompts.

(** RecentPrompt.tsx, lines 17-29 *)
Definition handleEdit (prompts : list PromptRecord) (id0 : string)
    (ps : PageState) : PageState :=
  match findPrompt prompts id0 with
  | Some prompt =>
      mkPageState "creative-ai"
        (setCurrentAiPrompt (prompt_title prompt)
           (addMultipleOutlines (prompt_outlines prompt) (app ps)))
  | None =>
      mkPageState (page ps)
        (emit (ToastError "Error" "Prompt not found .") (app ps))
  end.

(** The records the effect log says were handed to [addPrompt]. *)
Definition addedPrompts (s : App) : list PromptRecord :=
  omap (λ e, match e with AddPrompt p => Some p | _ => None end)
       (effects s).

End Pages.

(** ** Editor.tsx: the handlers around the slide store

    [useSlideStore] is not among the sources; each handler is given by the
    calls it makes into the store. *)

Module EditorHandlers.

Section WithLayouts.
Variable Layout : Type.
Variable Content : Type.

Inductive StoreCall :=
| ReorderSlides (dragIndex hoverIndex : Z)
| AddSlideAtIndex (component : Layout) (newId : string) (slideOrder : Z)
    (index : Z)
| RemoveSlide (slideId : string)
| UpdateContentItem (slideId contentId : string) (newContent : Content).

(** The item of a drop, as [DropZoneProps.onDrop] types it. *)
Record DropItem := mkDropItem {
  drop_type : string;
  drop_component : Layout;
  drop_index : option Z
}.

(** The item of a hover, as [useDrop]'s [hover] types it; the handler
    writes its [index]. *)
Record HoverItem := mkHoverItem {
  hover_index : Z;
  hover_type : string
}.

(** lines 178-180 *)
Definition moveSlide (isEditable : bool) (dragIndex hoverIndex : Z)
  : list StoreCall :=
  if isEditable then [ReorderSlides dragIndex hoverIndex] else [].

(** lines 182-196; [newId] is the result of [uuidv4()]. *)
Definition handleDrop (isEditable : bool) (newId : string) (item : DropItem)
    (dropIndex : Z) : list StoreCall :=
  if negb isEditable then []
  else if decide (drop_type item = "layout") then
    [AddSlideAtIndex (drop_component item) newId dropIndex dropIndex]
  else
    match drop_index item with
    | Some index =>
        if decide (drop_type item = "SLIDE")
        then moveSlide isEditable index dropIndex
        else []
    | None => []
    end.

(** lines 229-231 *)
Definition handleDelete (isEditable : bool) (slideId : string)
  : list StoreCall :=
  if isEditable then [RemoveSlide slideId] else [].

(** lines 105-109 *)
Definition handleContentChange (isEditable : bool)
    (slideId contentId : string) (newContent : Content) : list StoreCall :=
  if isEditable then [UpdateContentItem slideId contentId newContent]
  else [].

(** lines 92-100: the hover of the slide rendered at [index]; [hasRef] is
    the truth of [ref.current]. The item after the call and the store calls
    made. *)
Definition hover (hasRef isEditable : bool) (index : Z) (item : HoverItem)
  : HoverItem * list StoreCall :=
  if negb hasRef || negb isEditable then (item, [])
  else
    let dragIndex := hover_index item in
    let hoverIndex := index in
    if decide (hover_type item = "SLIDE" ∧ dragIndex ≠ hoverIndex) then
      (mkHoverItem hoverIndex (hover_type item),
       moveSlide isEditable dragIndex hoverIndex)
    else (item, []).

End WithLayouts.

Arguments ReorderSlides {Layout Content}.
Arguments AddSlideAtIndex {Layout Content}.
Arguments RemoveSlide {Layout Content}.
Arguments UpdateContentItem {Layout Content}.
Arguments mkDropItem {Layout}.
Arguments drop_type {Layout}.
Arguments drop_component {Layout}.
Arguments drop_index {Layout}.
Arguments moveSlide {Layout Content}.
Arguments handleDrop {Layout Content}.
Arguments handleDelete {Layout Content}.
Arguments handleContentChange {Layout Content}.
Arguments hover {Layout Content}.

End EditorHandlers.

(** ** Where the timers and the requests of the auto-save come from *)

Module EditorProvenance.
Import Editor.

Section WithSlides.
Variable Slide : Type.

(** The timer was started by a commit of the run, for that commit's render,
    and is due no earlier than a quiet period after it. *)
Definition timerFrom (seen : list (Event Slide)) (tm : Timer Slide) : Prop :=
  ∃ t, Commit t (closure tm) ∈ seen ∧ t + quietPeriod ≤ due tm.

(** The request carries the project and the slides of an editable render
    committed in the run, and was made no earlier than a quiet period after
    that commit. *)
Definition callFrom (seen : list (Event Slide)) (c : SaveCall Slide)
  : Prop :=
  ∃ t r,
    Commit t r ∈ seen
    ∧ isEditable r = true
    ∧ project r = Some (projectId c)
    ∧ payload c = slides r
    ∧ t + quietPeriod ≤ firedAt c.

(** Every commit of the run is of a read-only render. *)
Definition allReadOnly (evs : list (Event Slide)) : Prop :=
  ∀ t r, Commit t r ∈ evs → isEditable r = false.

End WithSlides.

Arguments timerFrom {Slide}.
Arguments callFrom {Slide}.
Arguments allReadOnly {Slide}.

End EditorProvenance.

(** ** More sample data *)

Module MoreSamples.
Import CardList Samples.

(** The upper half of an 80px card. *)
Definition upperHalf : DragEvent := mkDragEvent 110 100 80 180.

(** [c] picked up and held over the upper half of [a]. *)
Definition c_over_a : App :=
  onDragOver upperHalf 0 (onDragStart card_c abc).

(** [a] picked up and held at the bottom edge of the list container. *)
Definition a_over_end : App :=
  onContainerDragOver (mkDragEvent 395 100 300 400) (onDragStart card_a abc).

(** [b] picked up and held over its own lower half. *)
Definition b_over_b : App :=
  onDragOver lowerHalf 1 (onDragStart card_b abc).

(** A title typed for the card being edited. *)
Definition editing_b : App :=
  setEditText "Main part" (setEditingCard (Some "b") abc).

(** A prompt and three generated titles. *)
Definition asked : App := setCurrentAiPrompt "Quarterly review" initialApp.
Definition threeTitles : list string := ["Goals"; "Numbers"; "Next steps"].
Definition idOf (idx : Z) : string :=
  if decide (idx = 0) then "g0" else if decide (idx = 1) then "g1" else "g2".

(** The store before a project is created from three cards. *)
Definition ready : App := setCurrentAiPrompt "Quarterly review" counted.

(** A read-only render and an editable one of the slide editor. *)
Definition readOnly : Editor.Render nat :=
  Editor.mkRender [1%nat] false (Some "deck").
Definition editable : Editor.Render nat :=
  Editor.mkRender [1%nat; 2%nat] true (Some "deck").

(** A run of the slide editor in read-only mode. *)
Definition readOnlyRun : list (Editor.Event nat) :=
  [ Editor.Commit 0 readOnly;
    Editor.Commit 300 (Editor.mkRender [1%nat; 2%nat] false (Some "deck"));
    Editor.Idle 9000 ].

(** The record a project created from [ready] leaves behind, and the page
    state the recent prompts are opened from. *)
Definition savedRecord : PromptRecord :=
  mkPrompt "n1" "Quarterly review" [card_x; card_y; card_z]
           "2025-01-01T00:00:00.000Z".
Definition startPage : Pages.PageState := Pages.mkPageState "create" initialApp.

End MoreSamples.

(* ===================================================================== *)
(** * Part II: properties                                                 *)
(* ===================================================================== *)

(** ** The array methods on in-range arguments *)

Section JsArrayFacts.
Import JsArray.
Context {A : Type}.
Implicit Types (arr : list A) (k n : Z).

Lemma relative_nonneg len k : 0 ≤ k → relative len k = Z.min k len.
Proof.
  intros Hk. unfold relative.
  destruct (Z.ltb_spec k 0); [lia | done].
Qed.

Lemma slice_prefix arr n :
  0 ≤ n → slice 0 (Some n) arr = take (Z.to_nat n) arr.
Proof.
  intros Hn. unfold slice.
  rewrite !relative_nonneg by lia.
  replace (Z.to_nat (Z.min 0 (Z.of_nat (length arr)))) with 0%nat by lia.
  rewrite drop_0.
  destruct (Z.le_gt_cases n (Z.of_nat (length arr))) as [Hle | Hgt].
  - f_equal. lia.
  - rewrite !take_ge; [done | lia | lia].
Qed.

Lemma slice_suffix arr n :
  0 ≤ n → slice n None arr = drop (Z.to_nat n) arr.
Proof.
  intros Hn. unfold slice. rewrite relative_nonneg by lia.
  destruct (Z.le_gt_cases n (Z.of_nat (length arr))) as [Hle | Hgt].
  - rewrite Z.min_l by lia. apply take_ge. rewrite length_drop. lia.
  - rewrite Z.min_r by lia. rewrite !drop_ge by lia. apply take_nil.
Qed.

Lemma splice_remove_one arr (i : nat) x :
  arr !! i = Some x →
  splice (Z.of_nat i) 1 [] arr = ([x], take i arr ++ drop (S i) arr).
Proof.
  intros Hx. pose proof (lookup_lt_Some _ _ _ Hx) as Hlt.
  unfold splice. rewrite relative_nonneg by lia.
  replace (Z.min (Z.of_nat i) (Z.of_nat (length arr))) with (Z.of_nat i)
    by lia.
  replace (Z.min (Z.max 1 0) (Z.of_nat (length arr) - Z.of_nat i)) with 1
    by lia.
  rewrite Nat2Z.id.
  replace (Z.to_nat (Z.of_nat i + 1)) with (S i) by lia.
  f_equal.
  change (Z.to_nat 1) with 1%nat.
  rewrite (drop_S _ _ _ Hx). simpl. by rewrite take_0.
Qed.

Lemma splice_insert_one arr k x :
  0 ≤ k →
  splice k 0 [x] arr
  = ([], take (Z.to_nat k) arr ++ x :: drop (Z.to_nat k) arr).
Proof.
  intros Hk. unfold splice. rewrite relative_nonneg by lia.
  replace (Z.min (Z.max 0 0) _) with 0 by lia.
  rewrite Z.add_0_r. change (Z.to_nat 0) with 0%nat. rewrite take_0.
  destruct (Z.le_gt_cases k (Z.of_nat (length arr))) as [Hle | Hgt].
  - by rewrite Z.min_l by lia.
  - rewrite Z.min_r by lia. rewrite Nat2Z.id.
    by rewrite !take_ge, !drop_ge by lia.
Qed.

Lemma findIndex_found (P : A → Prop) `{!∀ x, Decision (P x)} arr :
  findIndex P arr ≠ -1 →
  ∃ (i : nat) x,
    findIndex P arr = Z.of_nat i ∧ arr !! i = Some x ∧ P x
    ∧ ∀ j y, arr !! j = Some y → (j < i)%nat → ¬ P y.
Proof.
  unfold findIndex. destruct (list_find P arr) as [[i x]|] eqn:Hfind.
  - intros _. apply list_find_Some in Hfind as (Hi & HP & Hfirst).
    exists i, x. eauto.
  - done.
Qed.

Lemma findIndex_missing (P : A → Prop) `{!∀ x, Decision (P x)} arr :
  Forall (λ x, ¬ P x) arr → findIndex P arr = -1.
Proof.
  intros Hall. unfold findIndex.
  destruct (list_find P arr) as [[i x]|] eqn:Hfind; [|done].
  apply list_find_Some in Hfind as (Hi & HP & _).
  rewrite Forall_lookup in Hall. by destruct (Hall _ _ Hi).
Qed.

Lemma findIndex_at (P : A → Prop) `{!∀ x, Decision (P x)} arr (i : nat) x :
  arr !! i = Some x → P x →
  (∀ j y, arr !! j = Some y → (j < i)%nat → ¬ P y) →
  findIndex P arr = Z.of_nat i.
Proof.
  intros Hi HP Hfirst. unfold findIndex.
  assert (list_find P arr = Some (i, x)) as ->; [|done].
  apply list_find_Some. eauto.
Qed.

(** The case [onDrop] leaves out: a found index always removes a card. *)
Lemma splice_found_removes_one (P : A → Prop) `{!∀ x, Decision (P x)} arr :
  findIndex P arr ≠ -1 →
  ∃ x, (splice (findIndex P arr) 1 [] arr).1 = [x].
Proof.
  intros (i & x & -> & Hi & _)%findIndex_found.
  exists x. by rewrite (splice_remove_one _ _ _ Hi).
Qed.

Lemma length_mapi {B} (f : Z → A → B) arr :
  length (mapi f arr) = length arr.
Proof. apply length_imap. Qed.

Lemma lookup_mapi {B} (f : Z → A → B) arr (i : nat) :
  mapi f arr !! i = f (Z.of_nat i) <$> arr !! i.
Proof. unfold mapi. by rewrite list_lookup_imap. Qed.

End JsArrayFacts.

(** ** Filtering lists *)

Section FilterFacts.
Context {A : Type} (P : A → Prop) `{!∀ x, Decision (P x)}.
Implicit Types (l : list A).

Lemma filter_none l :
  length (filter P l) = 0%nat → Forall (λ x, ¬ P x) l.
Proof.
  induction l as [|x l IH]; [constructor|].
  rewrite filter_cons. case_decide; simpl; [lia|].
  intros Hlen. constructor; auto.
Qed.

Lemma filter_nothing l :
  Forall (λ x, ¬ P x) l → filter P l = [].
Proof.
  induction 1 as [|x l Hx _ IH]; [done|].
  by rewrite filter_cons, decide_False.
Qed.

Lemma filter_all l :
  Forall P l → filter P l = l.
Proof.
  induction 1 as [|x l Hx _ IH]; [done|].
  rewrite filter_cons, decide_True by done. by rewrite IH.
Qed.

(** A list with exactly one element satisfying [P] splits around it. *)
Lemma filter_one_split l :
  length (filter P l) = 1%nat →
  ∃ before x after,
    l = before ++ x :: after ∧ P x
    ∧ Forall (λ y, ¬ P y) before ∧ Forall (λ y, ¬ P y) after.
Proof.
  induction l as [|y l IH]; [done|].
  rewrite filter_cons. case_decide as Hy; simpl.
  - intros [= Hlen]. exists [], y, l.
    split_and!; [done | done | constructor | by apply filter_none].
  - intros (before & x & after & -> & Hx & Hbefore & Hafter)%IH.
    exists (y :: before), x, after.
    split_and!; [done | done | by constructor | done].
Qed.

End FilterFacts.

(** ** Order contiguity *)

Section Contiguity.
Import JsArray CardList.
Implicit Types (cards : list OutlineCard) (s : App).

Lemma contiguous_lookup cards :
  contiguous cards ↔
  ∀ (i : nat) card, cards !! i = Some card → order card = Z.of_nat i + 1.
Proof.
  unfold contiguous. split.
  - intros Heq i card Hi.
    assert ((order <$> cards) !! i = Some (order card)) as Hl
      by (by rewrite list_lookup_fmap, Hi).
    rewrite Heq, list_lookup_fmap in Hl.
    pose proof (lookup_lt_Some _ _ _ Hi) as Hlt.
    rewrite lookup_seq_lt in Hl by done. simpl in Hl. congruence.
  - intros Hall. apply list_eq. intros i.
    rewrite !list_lookup_fmap.
    destruct (cards !! i) as [card|] eqn:Hi; simpl.
    + pose proof (lookup_lt_Some _ _ _ Hi) as Hlt.
      rewrite lookup_seq_lt by done. simpl. f_equal. eauto.
    + apply lookup_ge_None in Hi. by rewrite lookup_seq_ge by lia.
Qed.

Lemma contiguous_nil : contiguous [].
Proof. reflexivity. Qed.

Lemma contiguous_renumber cards : contiguous (mapi renumber cards).
Proof.
  apply contiguous_lookup. intros i card.
  rewrite lookup_mapi. destruct (cards !! i); simpl; [|done].
  by intros [= <-].
Qed.

Lemma contiguous_fmap_title (f : OutlineCard → OutlineCard) cards :
  (∀ card, order (f card) = order card) →
  contiguous cards → contiguous (f <$> cards).
Proof.
  intros Hf. rewrite !contiguous_lookup. intros Hc i card.
  rewrite list_lookup_fmap.
  destruct (cards !! i) as [card'|] eqn:Hi; simpl; [|done].
  intros [= <-]. rewrite Hf. eauto.
Qed.

Lemma contiguous_append cards newId t :
  contiguous cards →
  contiguous (cards ++ [mkCard newId t (Z.of_nat (length cards) + 1)]).
Proof.
  rewrite !contiguous_lookup. intros Hc i card Hi.
  apply lookup_app_Some in Hi as [Hi | [Hge Hi]]; [eauto|].
  apply list_lookup_singleton_Some in Hi as [Hi <-]. simpl. lia.
Qed.

(** The shape [onAddCard] builds for an anchor: prefix up to the anchor,
    the new card, the shifted rest. *)
Lemma contiguous_insert_after cards (k : nat) newId t :
  (k ≤ length cards)%nat →
  contiguous cards →
  contiguous (take k cards
              ++ [mkCard newId t (Z.of_nat k + 1)]
              ++ ((λ card, with_order card (order card + 1))
                    <$> drop k cards)).
Proof.
  intros Hk. rewrite !contiguous_lookup. intros Hc i card Hi.
  apply lookup_app_Some in Hi as [Hi | [Hge Hi]].
  - apply lookup_take_Some in Hi as [Hi _]. eauto.
  - rewrite length_take, Nat.min_l in Hge, Hi by done.
    apply lookup_app_Some in Hi as [Hi | [Hge' Hi]].
    + apply list_lookup_singleton_Some in Hi as [Hi <-]. simpl. lia.
    + simpl in Hge', Hi. rewrite list_lookup_fmap, lookup_drop in Hi.
      destruct (cards !! (k + (i - k - 1))%nat) as [card'|] eqn:Hi';
        simpl in Hi; [|done].
      injection Hi as <-. simpl. rewrite (Hc _ _ Hi'). lia.
Qed.

Lemma onAddCard_contiguous newId index s :
  enabled s (EvAddCard newId index) = true →
  contiguous (outlines s) →
  contiguous (outlines (onAddCard newId index s)).
Proof.
  intros Hen Hc. unfold onAddCard. simpl.
  destruct index as [i|].
  - simpl in Hen. apply bool_decide_eq_true in Hen.
    rewrite slice_prefix, slice_suffix by lia.
    replace (i + 1 + 1) with (Z.of_nat (Z.to_nat (i + 1)) + 1) by lia.
    apply contiguous_insert_after; [lia | done].
  - by apply contiguous_append.
Qed.

Lemma onDrop_contiguous s :
  contiguous (outlines s) → contiguous (outlines (onDrop s)).
Proof.
  intros Hc. unfold onDrop.
  destruct (draggedItem s) as [item|]; [|done].
  destruct (dragOverIndex s) as [over|]; [|done].
  case_decide; [done|].
  destruct (splice _ 1 [] _) as [removed cards1].
  destruct removed as [|removeCard ?]; [done|].
  destruct (splice _ 0 _ _) as [? cards2]. simpl.
  apply contiguous_renumber.
Qed.

Lemma step_contiguous s ev :
  enabled s ev = true →
  contiguous (outlines s) → contiguous (outlines (step s ev)).
Proof.
  intros Hen Hc. destruct ev; cbn [step].
  - exact Hc.
  - exact Hc.
  - unfold onDragOver. destruct (draggedItem s); [|exact Hc].
    destruct (Qlt_le_dec _ _); exact Hc.
  - unfold onContainerDragOver, onDragOver.
    destruct (draggedItem s);
      repeat first [case_decide | destruct (Qlt_le_dec _ _)]; exact Hc.
  - by apply onDrop_contiguous.
  - exact Hc.
  - unfold onCardUpdate. apply contiguous_fmap_title; [|exact Hc].
    intros card. by case_decide.
  - apply contiguous_renumber.
  - by apply onAddCard_contiguous.
Qed.

(** C1. Starting from an empty outline list, after every event of the
    ordered list editor (insert through [onAddCard], delete through
    [onCardDelete], move through the drag handlers and [onDrop], and the
    events that commit nothing), the [order] fields of the N cards are
    1, 2, ..., N in array order. *)
Theorem order_contiguity (evs : list Event) (s0 : App) :
  outlines s0 = [] →
  admissible evs s0 = true →
  Forall (λ s, contiguous (outlines s)) (trace evs s0).
Proof.
  intros Hempty.
  assert (contiguous (outlines s0)) as Hc
    by (rewrite Hempty; apply contiguous_nil).
  clear Hempty. revert s0 Hc.
  induction evs as [|ev evs IH]; intros s Hc Hadm; simpl.
  - constructor.
  - simpl in Hadm. apply andb_prop in Hadm as [Hen Hadm].
    pose proof (step_contiguous _ _ Hen Hc) as Hc'.
    constructor; [done | by apply IH].
Qed.

End Contiguity.

(** ** Moving a card by drag and drop *)

Section Move.
Import JsArray CardList Reference.
Implicit Types (cards : list OutlineCard) (s : App).

Lemma mapi_renumber_from cards (n : Z) :
  imap (λ i card, with_order card (Z.of_nat i + n)) cards
  = renumberFrom n cards.
Proof.
  revert n. induction cards as [|card rest IH]; intros n; [done|].
  rewrite imap_cons. simpl. f_equal.
  rewrite <- IH. apply imap_ext. intros i x _. simpl. f_equal. lia.
Qed.

Lemma mapi_renumber cards : mapi renumber cards = renumberFrom 1 cards.
Proof. apply mapi_renumber_from. Qed.

Lemma renumberFrom_identity n cards :
  identity <$> renumberFrom n cards = identity <$> cards.
Proof.
  revert n. induction cards as [|card rest IH]; intros n; [done|].
  simpl. by rewrite IH.
Qed.

Lemma length_renumberFrom n cards :
  length (renumberFrom n cards) = length cards.
Proof.
  revert n. induction cards as [|card rest IH]; intros n; [done|].
  simpl. by rewrite IH.
Qed.

(** The hover index: the slot before the card in its upper half, the slot
    after it from the middle on. *)
Lemma onDragOver_half e index s item :
  draggedItem s = Some item →
  dragOverIndex (onDragOver e index s)
  = Some (if Qlt_le_dec (clientY e - rect_top e) (rect_height e / 2)
          then index else index + 1).
Proof.
  intros Hitem. unfold onDragOver. rewrite Hitem.
  by destruct (Qlt_le_dec _ _).
Qed.

(** What [onDrop] commits once the guards are passed. *)
Lemma onDrop_commit s item (i : nat) (j : Z) card :
  draggedItem s = Some item →
  dragOverIndex s = Some j →
  findIndex (λ c, id c = id item) (outlines s) = Z.of_nat i →
  outlines s !! i = Some card →
  0 ≤ j → j ≠ Z.of_nat i →
  onDrop s
  = setDragOverIndex None
      (setDraggedItem None
         (addMultipleOutlines
            (renumberFrom 1 (moveItem i (Z.to_nat j) (outlines s))) s)).
Proof.
  intros Hitem Hover Hfound Hcard Hj Hne.
  unfold onDrop. rewrite Hitem, Hover, Hfound.
  rewrite decide_False by lia.
  rewrite (splice_remove_one _ _ _ Hcard).
  rewrite splice_insert_one
    by (destruct (Z.gtb_spec j (Z.of_nat i)); lia).
  rewrite mapi_renumber. unfold moveItem. rewrite Hcard.
  rewrite delete_take_drop.
  replace (Z.to_nat (if j >? Z.of_nat i then j - 1 else j))
    with (if (i <? Z.to_nat j)%nat then (Z.to_nat j - 1)%nat
          else Z.to_nat j); [done|].
  destruct (Z.gtb_spec j (Z.of_nat i)), (Nat.ltb_spec i (Z.to_nat j)); lia.
Qed.

(** C2. When the dragged card's identity is found at index [i] and the
    hover index [j] differs from [i], [onDrop] commits the list with the
    card taken out of position [i] and put back at position [j], one less
    when [j > i], and the [order] fields renumbered from 1. *)
Theorem drop_moves_card s item (i : nat) (j : Z) :
  draggedItem s = Some item →
  dragOverIndex s = Some j →
  findIndex (λ c, id c = id item) (outlines s) = Z.of_nat i →
  0 ≤ j → j ≠ Z.of_nat i →
  outlines (onDrop s)
  = renumberFrom 1 (moveItem i (Z.to_nat j) (outlines s)).
Proof.
  intros Hitem Hover Hfound Hj Hne.
  destruct (findIndex_found (λ c, id c = id item) (outlines s))
    as (i' & card & Hi' & Hcard & _); [lia|].
  assert (i' = i) as -> by lia.
  by rewrite (onDrop_commit s item i j card).
Qed.

End Move.

(** ** Inserting a card *)

Section Insert.
Import JsArray CardList.
Implicit Types (cards : list OutlineCard) (s : App).

Lemma onAddCard_anchor newId s (i : nat) :
  outlines (onAddCard newId (Some (Z.of_nat i)) s)
  = take (S i) (outlines s)
    ++ mkCard newId (titleOrDefault s) (Z.of_nat i + 2)
    :: ((λ card, with_order card (order card + 1))
          <$> drop (S i) (outlines s)).
Proof.
  unfold onAddCard. cbn [outlines setEditText addMultipleOutlines
                         set_outlines].
  rewrite slice_prefix, slice_suffix by lia.
  replace (Z.to_nat (Z.of_nat i + 1)) with (S i) by lia.
  replace (Z.of_nat i + 1 + 1) with (Z.of_nat i + 2) by lia.
  done.
Qed.

(** C3, as the code has it. The anchor is the 0-based array index of a
    card of the list: the new card lands right after that card with
    [order = index + 2], the cards up to the anchor are untouched, every
    later card moves one slot down with its [order] one higher; without
    an anchor the new card is appended with [order = N + 1]. *)
Theorem insert_after_anchor newId s (i : nat) anchor :
  outlines s !! i = Some anchor →
  let cards' := outlines (onAddCard newId (Some (Z.of_nat i)) s) in
  length cards' = S (length (outlines s))
  ∧ (∀ (k : nat) card, (k ≤ i)%nat →
       outlines s !! k = Some card → cards' !! k = Some card)
  ∧ cards' !! S i = Some (mkCard newId (titleOrDefault s) (Z.of_nat i + 2))
  ∧ (∀ (k : nat) card, (i < k)%nat →
       outlines s !! k = Some card →
       cards' !! S k = Some (with_order card (order card + 1)))
  ∧ outlines (onAddCard newId None s)
    = outlines s
      ++ [mkCard newId (titleOrDefault s) (Z.of_nat (length (outlines s)) + 1)].
Proof.
  intros Hanchor cards'. subst cards'. rewrite onAddCard_anchor.
  pose proof (lookup_lt_Some _ _ _ Hanchor) as Hlt.
  assert (length (take (S i) (outlines s)) = S i) as Hlen
    by (rewrite length_take; lia).
  repeat split.
  - rewrite length_app, Hlen. simpl.
    rewrite length_fmap, length_drop. lia.
  - intros k card Hk Hcard.
    rewrite lookup_app_l by lia. rewrite lookup_take_lt by lia. done.
  - rewrite lookup_app_r by lia. by rewrite Hlen, Nat.sub_diag.
  - intros k card Hk Hcard.
    rewrite lookup_app_r by lia. rewrite Hlen.
    replace (S k - S i)%nat with (S (k - S i)) by lia. simpl.
    rewrite list_lookup_fmap, lookup_drop.
    replace (S i + (k - S i))%nat with k by lia. by rewrite Hcard.
Qed.

End Insert.

(** ** Drops that commit nothing, and the drag state *)

Section Abort.
Import JsArray CardList.
Implicit Types (cards : list OutlineCard) (s : App).

Lemma findIndex_absent (item : OutlineCard) cards :
  id item ∉ id <$> cards →
  findIndex (λ c, id c = id item) cards = -1.
Proof.
  intros Hnot. apply findIndex_missing, Forall_forall.
  intros card Hin Heq. apply Hnot. rewrite <- Heq.
  by apply list_elem_of_fmap_2.
Qed.

(** Both early returns of [onDrop] hand back the render's state as it is:
    nothing is committed and no setter runs. *)
Lemma onDrop_abort s item j :
  draggedItem s = Some item →
  dragOverIndex s = Some j →
  id item ∉ id <$> outlines s
  ∨ findIndex (λ c, id c = id item) (outlines s) = j →
  onDrop s = s.
Proof.
  intros Hitem Hover Hcase. unfold onDrop. rewrite Hitem, Hover.
  rewrite decide_True; [done|].
  destruct Hcase as [Habsent | Hsame]; [left | by right].
  by apply findIndex_absent.
Qed.

Lemma onDrop_idle s :
  draggedItem s = None ∨ dragOverIndex s = None → onDrop s = s.
Proof.
  intros [H | H]; unfold onDrop; rewrite H; [done|].
  by destruct (draggedItem s).
Qed.

(** C4. A drop whose dragged identity is not in the list, or whose hover
    index is the card's own index, leaves the outline list as it was. *)
Theorem noop_drop_unchanged s item j :
  draggedItem s = Some item →
  dragOverIndex s = Some j →
  id item ∉ id <$> outlines s
  ∨ findIndex (λ c, id c = id item) (outlines s) = j →
  outlines (onDrop s) = outlines s.
Proof. intros Hitem Hover Hcase. by rewrite (onDrop_abort s item j). Qed.

Lemma onDragEnd_clears s :
  draggedItem (onDragEnd s) = None ∧ dragOverIndex (onDragEnd s) = None.
Proof. done. Qed.

Lemma onDrop_commit_clears s item (i : nat) j :
  draggedItem s = Some item →
  dragOverIndex s = Some j →
  findIndex (λ c, id c = id item) (outlines s) = Z.of_nat i →
  0 ≤ j → j ≠ Z.of_nat i →
  draggedItem (onDrop s) = None ∧ dragOverIndex (onDrop s) = None.
Proof.
  intros Hitem Hover Hfound Hj Hne.
  destruct (findIndex_found (λ c, id c = id item) (outlines s))
    as (i' & card & Hi' & Hcard & _); [lia|].
  assert (i' = i) as -> by lia.
  by rewrite (onDrop_commit s item i j card).
Qed.

(** The aborting drop keeps the drag state of the render it ran in. *)
Lemma onDrop_abort_keeps_drag_state s item j :
  draggedItem s = Some item →
  dragOverIndex s = Some j →
  id item ∉ id <$> outlines s
  ∨ findIndex (λ c, id c = id item) (outlines s) = j →
  draggedItem (onDrop s) = Some item ∧ dragOverIndex (onDrop s) = Some j.
Proof.
  intros Hitem Hover Hcase. by rewrite (onDrop_abort s item j).
Qed.

(** C6, at the two aborting drops: the card dropped on its own slot and
    the card that left the list during the drag. After [onDrop] returns,
    [draggedItem] and [dragOverIndex] still hold the gesture's values;
    only a later [onDragEnd] clears them. *)
Theorem drop_abort_leaves_drag_state :
  (draggedItem (onDrop Samples.a_over_a) = Some Samples.card_a
   ∧ dragOverIndex (onDrop Samples.a_over_a) = Some 0)
  ∧ (draggedItem (onDrop Samples.a_gone) = Some Samples.card_a
     ∧ dragOverIndex (onDrop Samples.a_gone) = Some 1)
  ∧ draggedItem (onDragEnd (onDrop Samples.a_gone)) = None
  ∧ dragOverIndex (onDragEnd (onDrop Samples.a_gone)) = None.
Proof. vm_compute. done. Qed.

End Abort.

(** ** Deleting a card *)

Section Delete.
Import JsArray CardList Reference.
Implicit Types (cards : list OutlineCard) (s : App).

Lemma onCardDelete_split id0 s before card after :
  outlines s = before ++ card :: after →
  id card = id0 →
  Forall (λ c, id c ≠ id0) before →
  Forall (λ c, id c ≠ id0) after →
  outlines (onCardDelete id0 s) = renumberFrom 1 (before ++ after).
Proof.
  intros Hsplit Hid Hbefore Hafter. unfold onCardDelete.
  cbn [outlines addMultipleOutlines set_outlines].
  rewrite mapi_renumber, Hsplit. f_equal.
  rewrite filter_app, filter_cons, decide_False by (by intros []).
  by rewrite !filter_all.
Qed.

(** C5. When exactly one card of the list carries the given id, the list
    is [before ++ card :: after] around that card, and [onCardDelete]
    commits a list one shorter, holding the cards of [before ++ after]
    with their ids and titles in the same order, and with [order] fields
    1, 2, ..., N-1. *)
Theorem delete_by_id id0 s :
  length (filter (λ c, id c = id0) (outlines s)) = 1%nat →
  ∃ before card after,
    outlines s = before ++ card :: after
    ∧ id card = id0
    ∧ S (length (outlines (onCardDelete id0 s))) = length (outlines s)
    ∧ identity <$> outlines (onCardDelete id0 s)
      = identity <$> (before ++ after)
    ∧ contiguous (outlines (onCardDelete id0 s)).
Proof.
  intros (before & card & after & Hsplit & Hid & Hbefore & Hafter)
    %filter_one_split.
  exists before, card, after.
  rewrite (onCardDelete_split id0 s before card after) by done.
  split_and!; [done | done | | |].
  - rewrite length_renumberFrom, Hsplit, !length_app. simpl. lia.
  - apply renumberFrom_identity.
  - rewrite <- mapi_renumber. apply contiguous_renumber.
Qed.

End Delete.

(** ** Resetting the store *)

Section Reset.
Import CreativeAI.
Implicit Types (s : App).

(** C7, as the code has it. The store's [resetOutlines] empties the
    outline list and keeps the prompt; the page's [resetCards], which
    calls [setCurrentAiPrompt('')] and then [resetOutlines()], leaves both
    empty, whatever the state before. *)
Theorem reset_clears s :
  (outlines (resetOutlines s) = []
   ∧ currentAiPrompt (resetOutlines s) = currentAiPrompt s)
  ∧ (outlines (resetCards s) = [] ∧ currentAiPrompt (resetCards s) = "").
Proof. done. Qed.

Lemma resetCards_clears_edit_state s :
  editingCard (resetCards s) = None
  ∧ selectedCard (resetCards s) = None
  ∧ editText (resetCards s) = "".
Proof. done. Qed.

End Reset.

(** ** Validation and project creation *)

Section Page.
Import JsArray CreativeAI.
Implicit Types (s : App).






Lemma slice_counter {A} (arr : list A) (n : Z) :
  0 ≤ n →
  slice 0 (Some n) arr
  = take (Z.to_nat (Z.min n (Z.of_nat (length arr)))) arr.
Proof.
  intros Hn. rewrite slice_prefix by done.
  destruct (Z.le_gt_cases n (Z.of_nat (length arr))).
  - by rewrite Z.min_l.
  - rewrite Z.min_r, Nat2Z.id by lia. rewrite firstn_all.
    apply take_ge. lia.
Qed.

(** C10. With a non-empty outline list of length N and a counter
    [noOfCards], [handleGenerate] sends [createProject] the first
    [min noOfCards N] cards, once; on success the prompt record it adds
    holds the whole list; and the [useEffect] on [outlines.length] sets
    the counter to N when the length differs from the previous render's
    and leaves it alone otherwise. *)
Theorem project_creation_submits_prefix newId now res s :
  outlines s ≠ [] →
  0 ≤ noOfCards s →
  let N := Z.of_nat (length (outlines s)) in
  let sent := take (Z.to_nat (Z.min (noOfCards s) N)) (outlines s) in
  let s' := handleGenerate newId now res s in
  length sent = Z.to_nat (Z.min (noOfCards s) N)
  ∧ (∃ rest,
       effects s'
       = effects s ++ CallCreateProject (currentAiPrompt s) sent :: rest
       ∧ Forall (λ e, ¬ isCreateCall e) rest)
  ∧ (∀ projectId, res = CreateResolved 200 (Some projectId) →
       effects s'
       = effects s
         ++ [ CallCreateProject (currentAiPrompt s) sent;
              RouterPush ("/presentation/" +:+ projectId
                            +:+ "/select-theme");
              SetProject projectId;
              AddPrompt (mkPrompt newId (promptTitle s) (outlines s) now);
              ToastSuccess "Success" "Project created successfully! " ])
  ∧ (∀ prev, length (outlines prev) = length (outlines s) →
       noOfCards (syncNoOfCards (Some prev) s) = noOfCards s)
  ∧ (∀ prev, length (outlines prev) ≠ length (outlines s) →
       noOfCards (syncNoOfCards (Some prev) s) = N).
Proof.
  intros Hne Hcount N sent s'. subst N sent s'.
  split_and!.
  - rewrite length_take. lia.
  - unfold handleGenerate.
    rewrite decide_False by (by destruct (outlines s)).
    rewrite slice_counter by done.
    destruct res as [|status [projectId|]]; [| case_decide |];
      cbn [effects setIsGenerating emit resetOutlines set_outlines
           setCurrentAiPrompt];
      rewrite <- ?app_assoc; simpl;
      eexists; (split; [reflexivity|]);
      repeat constructor; by intros [].
  - intros projectId ->. unfold handleGenerate.
    rewrite decide_False by (by destruct (outlines s)).
    rewrite slice_counter by done. rewrite decide_True by done.
    cbn [effects setIsGenerating emit resetOutlines set_outlines
         setCurrentAiPrompt].
    by rewrite <- !app_assoc.
  - intros prev Hsame. unfold syncNoOfCards. by rewrite decide_True.
  - intros prev Hdiff. unfold syncNoOfCards. by rewrite decide_False.
Qed.

End Page.

(** ** The debounced auto-save *)

Section Debounce.
Import Editor.
Context {Slide : Type}.
Implicit Types (w : World Slide) (r : Render Slide) (t T : Z)
  (rest : list (Z * Render Slide)).

(** While nothing is due the clock only moves. *)
Lemma advance_quiet t w :
  Forall (λ tm, t < due tm) (timers w) →
  advance t w
  = mkWorld (Z.max t (now w)) (timers w) (nextHandle w)
            (autoSaveTimeoutRef w) (calls w).
Proof.
  intros Hquiet. unfold advance.
  rewrite (filter_nothing (λ tm, due tm ≤ t)),
    (filter_all (λ tm, ¬ due tm ≤ t)); [done | |];
    (eapply Forall_impl; [exact Hquiet | simpl; intros; lia]).
Qed.

Lemma clearPending_tidy w :
  tidy w →
  clearPending w
  = mkWorld (now w) [] (nextHandle w) (autoSaveTimeoutRef w) (calls w).
Proof.
  unfold tidy, clearPending, clearTimeout.
  destruct w as [n tms nh ref cs]; simpl.
  destruct tms as [|tm [|tm' tms]]; [| |done].
  - by destruct ref.
  - intros ->. simpl. rewrite filter_cons, decide_False by auto. done.
Qed.

(** A commit that finds nothing due: the pending timer, if any, is
    replaced by one due a full quiet period later, and no request is
    made. *)
Lemma commit_quiet t r w :
  tidy w → quietUntil t w →
  step w (Commit t r)
  = if isEditable r then
      mkWorld t [mkTimer (nextHandle w) (t + quietPeriod) r]
              (Pos.succ (nextHandle w)) (Some (nextHandle w)) (calls w)
    else mkWorld t [] (nextHandle w) (autoSaveTimeoutRef w) (calls w).
Proof.
  intros Htidy [Hnow Hquiet]. cbn [step].
  rewrite advance_quiet by done. rewrite Z.max_l by done.
  unfold cleanup, effect.
  rewrite (clearPending_tidy (mkWorld t _ _ _ _)) by exact Htidy.
  rewrite (clearPending_tidy (mkWorld t [] _ _ _)) by exact I.
  by destruct (isEditable r).
Qed.

Lemma commit_quiet_tidy t t' r w :
  tidy w → quietUntil t w →
  t ≤ t' < t + quietPeriod →
  tidy (step w (Commit t r)) ∧ quietUntil t' (step w (Commit t r))
  ∧ calls (step w (Commit t r)) = calls w.
Proof.
  intros Htidy Hquiet Hnext.
  rewrite commit_quiet by done.
  destruct (isEditable r); unfold tidy, quietUntil; simpl;
    split_and!; try done; try lia.
  constructor; [simpl; lia | constructor].
Qed.

(** The world a burst of commits leaves: the clock at the last change,
    the requests as before, and only the last render's timer pending. *)
Lemma run_burst rest : ∀ t1 r1 w,
  tidy w → quietUntil t1 w → chained t1 rest →
  ∃ h nh ref,
    run (commits ((t1, r1) :: rest)) w
    = mkWorld (final (t1, r1) rest).1
        (if isEditable (final (t1, r1) rest).2
         then [mkTimer h ((final (t1, r1) rest).1 + quietPeriod)
                       (final (t1, r1) rest).2]
         else [])
        nh
        (if isEditable (final (t1, r1) rest).2 then Some h else ref)
        (calls w).
Proof.
  induction rest as [|[t2 r2] rest IH]; intros t1 r1 w Htidy Hquiet Hch.
  - unfold commits, run. cbn [fmap list_fmap foldl final fst snd].
    rewrite commit_quiet by done.
    destruct (isEditable r1);
      [ by exists (nextHandle w), (Pos.succ (nextHandle w)), None
      | by exists 1%positive, (nextHandle w), (autoSaveTimeoutRef w) ].
  - destruct Hch as [Hnext Hch]. simpl in Hnext, Hch.
    destruct (commit_quiet_tidy t1 t2 r1 w Htidy Hquiet Hnext)
      as (Htidy' & Hquiet' & Hcalls).
    destruct (IH t2 r2 _ Htidy' Hquiet' Hch) as (h & nh & ref & Hrun).
    exists h, nh, ref. rewrite <- Hcalls. exact Hrun.
Qed.

Lemma run_app (evs evs' : list (Event Slide)) w :
  run (evs ++ evs') w = run evs' (run evs w).
Proof. apply foldl_app. Qed.

(** Teardown: the cleanup leaves no timer, so time brings no request. *)
Lemma unmount_silences t w :
  tidy w →
  timers (step w (Unmount t)) = []
  ∧ ∀ T, calls (step (step w (Unmount t)) (Idle T))
         = calls (step w (Unmount t)).
Proof.
  intros Htidy.
  assert (tidy (advance t w)) as Htidy'.
  { unfold tidy, advance in *. simpl.
    destruct (timers w) as [|tm [|tm' tms]]; [done| |done].
    rewrite filter_cons. case_decide; simpl; done. }
  cbn [step]. unfold cleanup.
  rewrite clearPending_tidy by done. split; [done|].
  intros T. unfold advance. simpl. done.
Qed.

(** C9. A burst of changes, each arriving before the quiet period after
    the one before has elapsed, into a world where nothing is due yet:
    until the quiet period after the last change has elapsed no request
    is made; once it has, exactly one request has been added, fired
    [quietPeriod] after the last change with the slides of the last
    render; and if the component is torn down, no timer is pending and
    no request is made however long one waits, none at all when the
    teardown comes before the expiry. *)
Theorem debounce_collapses w t1 r1 rest pid :
  tidy w → quietUntil t1 w → chained t1 rest →
  isEditable (final (t1, r1) rest).2 = true →
  project (final (t1, r1) rest).2 = Some pid →
  let tn := (final (t1, r1) rest).1 in
  let rn := (final (t1, r1) rest).2 in
  let burst := commits ((t1, r1) :: rest) in
  (∀ T, tn ≤ T < tn + quietPeriod →
     calls (run (burst ++ [Idle T]) w) = calls w)
  ∧ (∀ T, tn + quietPeriod ≤ T →
       calls (run (burst ++ [Idle T]) w)
       = calls w ++ [mkSaveCall (tn + quietPeriod) pid (slides rn)])
  ∧ (∀ tu, timers (run (burst ++ [Unmount tu]) w) = []
       ∧ ∀ T, calls (run (burst ++ [Unmount tu; Idle T]) w)
              = calls (run (burst ++ [Unmount tu]) w))
  ∧ (∀ tu T, tn ≤ tu < tn + quietPeriod →
       calls (run (burst ++ [Unmount tu; Idle T]) w) = calls w).
Proof.
  intros Htidy Hquiet Hch Hedit Hproj tn rn burst.
  destruct (run_burst rest t1 r1 w Htidy Hquiet Hch)
    as (h & nh & ref & Hrun).
  fold tn rn burst in Hrun, Hedit, Hproj. rewrite Hedit in Hrun.
  assert (tidy (run burst w)) as Htidy' by (by rewrite Hrun).
  assert (∀ T, tn ≤ T < tn + quietPeriod →
            advance T (run burst w)
            = mkWorld T [mkTimer h (tn + quietPeriod) rn] nh (Some h)
                      (calls w)) as Hearly.
  { intros T HT. rewrite Hrun. rewrite advance_quiet; simpl.
    - by rewrite Z.max_l by lia.
    - constructor; [simpl; lia | constructor]. }
  split_and!.
  - intros T HT. rewrite run_app. cbn [run foldl step].
    fold (run burst w). by rewrite Hearly.
  - intros T HT. rewrite run_app. cbn [run foldl step].
    fold (run burst w). rewrite Hrun. unfold advance. simpl.
    rewrite filter_cons, decide_True by (simpl; lia). simpl.
    unfold saveSlides. by rewrite Hedit, Hproj.
  - intros tu.
    destruct (unmount_silences tu (run burst w) Htidy') as [Hnone Hcalls].
    split.
    + rewrite run_app. exact Hnone.
    + intros T. rewrite !run_app. exact (Hcalls T).
  - intros tu T Htu.
    destruct (unmount_silences tu (run burst w) Htidy') as [_ Hcalls].
    rewrite run_app. cbn [run foldl]. fold (run burst w).
    rewrite Hcalls. cbn [step]. rewrite (Hearly tu Htu).
    unfold cleanup. by rewrite clearPending_tidy.
Qed.

(** After the request of a burst has fired the world is as a burst needs
    it, so the next burst is collapsed in the same way. *)
Lemma burst_settles w t1 r1 rest T T' :
  tidy w → quietUntil t1 w → chained t1 rest →
  isEditable (final (t1, r1) rest).2 = true →
  (final (t1, r1) rest).1 + quietPeriod ≤ T → T ≤ T' →
  tidy (run (commits ((t1, r1) :: rest) ++ [Idle T]) w)
  ∧ quietUntil T' (run (commits ((t1, r1) :: rest) ++ [Idle T]) w).
Proof.
  intros Htidy Hquiet Hch Hedit HT HT'.
  destruct (run_burst rest t1 r1 w Htidy Hquiet Hch)
    as (h & nh & ref & Hrun).
  rewrite Hedit in Hrun.
  rewrite run_app. cbn [run foldl step].
  fold (run (commits ((t1, r1) :: rest)) w). rewrite Hrun.
  unfold advance, tidy, quietUntil. simpl.
  rewrite (filter_cons (λ tm, ¬ due tm ≤ T)), decide_False
    by (simpl; intros Hn; apply Hn; lia).
  simpl. split_and!; [done | unfold quietPeriod in *; lia | constructor].
Qed.

End Debounce.

(** ** The scenarios of the specification, run on the handlers *)

Section Scenarios.
Import JsArray CardList CreativeAI Reference Samples.

Lemma order_contiguity_session :
  Forall (λ s, contiguous (outlines s)) (trace session initialApp).
Proof.
  apply order_contiguity; [reflexivity | vm_compute; reflexivity].
Defined.

Example session_result :
  outlines <$> last (trace session initialApp)
  = Some [mkCard "q" "Agenda" 1; mkCard "p" "New Section" 2].
Proof. vm_compute. reflexivity. Qed.

(** [a] dropped on the lower half of [b] in [a, b, c]. *)
Lemma drop_a_after_b :
  outlines (onDrop a_over_b)
  = [mkCard "b" "Body" 1; mkCard "a" "Intro" 2; mkCard "c" "Close" 3].
Proof.
  rewrite (drop_moves_card a_over_b card_a 0 2);
    [reflexivity | reflexivity | reflexivity | reflexivity
    | discriminate | discriminate].
Defined.

(** The anchor 1 of [x, y] is [y]: the new card comes last, not second. *)
Lemma insert_after_index_1 :
  (λ card, (id card, order card))
    <$> outlines (onAddCard "new" (Some 1) xy)
  ≠ [("x", 1); ("new", 2); ("y", 3)].
Proof. vm_compute. discriminate. Qed.

Example insert_after_index_1_result :
  outlines (onAddCard "new" (Some 1) xy)
  = [card_x; card_y; mkCard "new" "New Section" 3].
Proof. reflexivity. Qed.

Example insert_after_index_0_result :
  outlines (onAddCard "new" (Some 0) xy)
  = [card_x; mkCard "new" "New Section" 2; mkCard "y" "Second" 3].
Proof. reflexivity. Qed.

Lemma insert_after_first_card :
  let cards' := outlines (onAddCard "new" (Some 0) xy) in
  length cards' = 3%nat
  ∧ cards' !! 0%nat = Some card_x
  ∧ cards' !! 1%nat = Some (mkCard "new" "New Section" 2)
  ∧ cards' !! 2%nat = Some (mkCard "y" "Second" 3)
  ∧ outlines (onAddCard "new" None xy)
    = [card_x; card_y; mkCard "new" "New Section" 3].
Proof.
  destruct (insert_after_anchor "new" xy 0 card_x eq_refl)
    as (Hlen & Hbefore & Hnew & Hafter & Happend).
  split_and!; [exact Hlen | | exact Hnew | | exact Happend].
  - apply (Hbefore 0%nat card_x); [exact (le_n 0) | reflexivity].
  - apply (Hafter 1%nat card_y); [exact (le_n 1) | reflexivity].
Defined.

Lemma drop_on_own_slot_or_gone :
  outlines (onDrop a_over_a) = outlines a_over_a
  ∧ outlines (onDrop a_gone) = outlines a_gone.
Proof.
  split.
  - apply (noop_drop_unchanged a_over_a card_a 0);
      [reflexivity | reflexivity | right; reflexivity].
  - apply (noop_drop_unchanged a_gone card_a 1);
      [reflexivity | reflexivity | left].
    apply (bool_decide_unpack _). vm_compute. exact I.
Defined.

Lemma delete_y_from_xyz :
  ∃ before card after,
    outlines xyz = before ++ card :: after
    ∧ id card = "y"
    ∧ S (length (outlines (onCardDelete "y" xyz))) = length (outlines xyz)
    ∧ identity <$> outlines (onCardDelete "y" xyz)
      = identity <$> (before ++ after)
    ∧ contiguous (outlines (onCardDelete "y" xyz)).
Proof. apply delete_by_id. reflexivity. Defined.

Example delete_y_result :
  outlines (onCardDelete "y" xyz) = [card_x; mkCard "z" "Third" 2].
Proof. reflexivity. Qed.

(** The store's [resetOutlines] alone does not empty the prompt. *)
Lemma resetOutlines_keeps_prompt :
  ¬ (currentAiPrompt (resetOutlines prompted) = ""
     ∧ outlines (resetOutlines prompted) = []).
Proof. intros [Hprompt _]. vm_compute in Hprompt. discriminate. Qed.

Lemma counted_submits_two_of_three :
  ∃ rest,
    effects (handleGenerate "n1" "2025-01-01T00:00:00.000Z"
               (CreateResolved 200 (Some "p1")) counted)
    = effects counted ++ CallCreateProject "" [card_x; card_y] :: rest
    ∧ Forall (λ e, ¬ isCreateCall e) rest.
Proof.
  destruct (project_creation_submits_prefix "n1" "2025-01-01T00:00:00.000Z"
              (CreateResolved 200 (Some "p1")) counted)
    as (_ & Hsent & _); [discriminate | discriminate | exact Hsent].
Defined.

Example counted_records_all_three :
  effects (handleGenerate "n1" "2025-01-01T00:00:00.000Z"
             (CreateResolved 200 (Some "p1")) counted)
  = [ CallCreateProject "" [card_x; card_y];
      RouterPush "/presentation/p1/select-theme";
      SetProject "p1";
      AddPrompt (mkPrompt "n1" "First" [card_x; card_y; card_z]
                          "2025-01-01T00:00:00.000Z");
      ToastSuccess "Success" "Project created successfully! " ].
Proof. reflexivity. Qed.

(** Changes at 0, 500 and 700 ms: one request, at 2700 ms, with the
    slides of the change at 700 ms. *)
Lemma burst_saves_once :
  Editor.calls
    (Editor.run (Editor.commits burst ++ [Editor.Idle 5000]) Editor.mounted)
  = [Editor.mkSaveCall 2700 "deck" [1%nat; 2%nat; 3%nat]].
Proof.
  destruct (debounce_collapses Editor.mounted
              0 (Editor.mkRender [1%nat] true (Some "deck"))
              (tail burst) "deck")
    as (_ & Hfire & _).
  - exact I.
  - split; [discriminate | constructor].
  - repeat split; discriminate.
  - reflexivity.
  - reflexivity.
  - apply (Hfire 5000). discriminate.
Defined.

Example burst_is_silent_before_expiry :
  Editor.calls
    (Editor.run (Editor.commits burst ++ [Editor.Idle 2699]) Editor.mounted)
  = [].
Proof. vm_compute. reflexivity. Qed.

Example two_bursts_two_requests :
  Editor.calls
    (Editor.run
       (Editor.commits burst
        ++ [ Editor.Commit 5000
               (Editor.mkRender [4%nat] true (Some "deck"));
             Editor.Commit 5100
               (Editor.mkRender [4%nat; 5%nat] true (Some "deck"));
             Editor.Idle 9000 ])
       Editor.mounted)
  = [ Editor.mkSaveCall 2700 "deck" [1%nat; 2%nat; 3%nat];
      Editor.mkSaveCall 7100 "deck" [4%nat; 5%nat] ].
Proof. vm_compute. reflexivity. Qed.

Example burst_torn_down :
  Editor.calls
    (Editor.run (Editor.commits burst
                 ++ [Editor.Unmount 1000; Editor.Idle 9000]) Editor.mounted)
  = [].
Proof. vm_compute. reflexivity. Qed.

End Scenarios.

(* ===================================================================== *)
(** * Part III: further properties of the handlers                        *)
(* ===================================================================== *)

(** ** The array methods on arbitrary integer arguments *)

Section JsArrayAnyIndex.
Import JsArray.
Context {A : Type}.
Implicit Types (arr : list A) (k : Z).

Lemma relative_range len k : 0 ≤ len → 0 ≤ relative len k ≤ len.
Proof. intros Hlen. unfold relative. destruct (Z.ltb_spec k 0); lia. Qed.

Lemma slice_prefix_any arr k :
  slice 0 (Some k) arr
  = take (Z.to_nat (relative (Z.of_nat (length arr)) k)) arr.
Proof.
  unfold slice. rewrite (relative_nonneg _ 0) by lia.
  replace (Z.to_nat (Z.min 0 (Z.of_nat (length arr)))) with 0%nat by lia.
  rewrite drop_0. f_equal.
  pose proof (relative_range (Z.of_nat (length arr)) k). lia.
Qed.

Lemma slice_suffix_any arr k :
  slice k None arr
  = drop (Z.to_nat (relative (Z.of_nat (length arr)) k)) arr.
Proof.
  unfold slice.
  pose proof (relative_range (Z.of_nat (length arr)) k).
  apply take_ge. rewrite length_drop. lia.
Qed.

Lemma splice_insert_any arr k x :
  splice k 0 [x] arr
  = ([], take (Z.to_nat (relative (Z.of_nat (length arr)) k)) arr
         ++ x :: drop (Z.to_nat (relative (Z.of_nat (length arr)) k)) arr).
Proof.
  unfold splice.
  pose proof (relative_range (Z.of_nat (length arr)) k).
  replace (Z.min (Z.max 0 0) _) with 0 by lia.
  rewrite Z.add_0_r. change (Z.to_nat 0) with 0%nat. by rewrite take_0.
Qed.

End JsArrayAnyIndex.

(** ** Moves: what a drop keeps, and where the card lands *)

Section MoreMoves.
Import JsArray CardList Reference.
Implicit Types (cards : list OutlineCard) (s : App).

Lemma renumberFrom_contiguous cards :
  contiguous cards → renumberFrom 1 cards = cards.
Proof.
  intros Hc. rewrite <- mapi_renumber. apply list_eq. intros i.
  rewrite lookup_mapi. destruct (cards !! i) as [card|] eqn:Hi; [|done].
  simpl. f_equal. apply contiguous_lookup with (i := i) (card := card) in Hc;
    [|done].
  destruct card as [cid ct co]. unfold renumber, with_order. simpl in *.
  by rewrite Hc.
Qed.

Lemma insert_anywhere_permutation {A} (l : list A) (m : nat) x :
  take m l ++ x :: drop m l ≡ₚ x :: l.
Proof.
  rewrite <- Permutation_middle. by rewrite take_drop.
Qed.

(** X1. A drop, committed or not, keeps the cards: the pairs of id and
    title after [onDrop] are a permutation of those before, so no card is
    lost, duplicated or renamed. *)
Theorem drop_keeps_the_cards s :
  identity <$> outlines (onDrop s) ≡ₚ identity <$> outlines s.
Proof.
  unfold onDrop.
  destruct (draggedItem s) as [item|]; [|done].
  destruct (dragOverIndex s) as [over|]; [|done].
  case_decide as Hguard; [done|].
  destruct (findIndex_found (λ c, id c = id item) (outlines s))
    as (i & card & Hi & Hcard & _); [tauto|].
  rewrite Hi, (splice_remove_one _ _ _ Hcard), splice_insert_any.
  cbn [outlines setDragOverIndex setDraggedItem addMultipleOutlines
       set_outlines].
  rewrite mapi_renumber, renumberFrom_identity.
  apply fmap_Permutation.
  rewrite insert_anywhere_permutation.
  by rewrite <- (take_drop_middle _ _ _ Hcard) at 3;
    rewrite <- Permutation_middle.
Qed.

(** X2. A hover index at or beyond the length of the list, as the
    container's handler produces it, sends the dragged card to the end. *)
Theorem drop_beyond_end_moves_last s item (i : nat) card j :
  draggedItem s = Some item →
  dragOverIndex s = Some j →
  findIndex (λ c, id c = id item) (outlines s) = Z.of_nat i →
  outlines s !! i = Some card →
  Z.of_nat (length (outlines s)) ≤ j →
  outlines (onDrop s) = renumberFrom 1 (delete i (outlines s) ++ [card]).
Proof.
  intros Hitem Hover Hfound Hcard Hj.
  pose proof (lookup_lt_Some _ _ _ Hcard) as Hlt.
  rewrite (onDrop_commit s item i j card) by (done || lia).
  cbn [outlines setDragOverIndex setDraggedItem addMultipleOutlines
       set_outlines].
  f_equal. unfold moveItem. rewrite Hcard.
  destruct (Nat.ltb_spec i (Z.to_nat j)); [|lia].
  rewrite take_ge, drop_ge by (rewrite length_delete by eauto; lia).
  done.
Qed.

(** X3. Dropping a card on its own lower half (hover index one past its
    own index) passes the guard and commits; with contiguous [order]
    fields what is committed is the list as it was, and the drag state is
    cleared. *)
Theorem drop_on_own_lower_half s item (i : nat) :
  draggedItem s = Some item →
  dragOverIndex s = Some (Z.of_nat i + 1) →
  findIndex (λ c, id c = id item) (outlines s) = Z.of_nat i →
  contiguous (outlines s) →
  outlines (onDrop s) = outlines s
  ∧ draggedItem (onDrop s) = None
  ∧ dragOverIndex (onDrop s) = None.
Proof.
  intros Hitem Hover Hfound Hc.
  destruct (findIndex_found (λ c, id c = id item) (outlines s))
    as (i' & card & Hi' & Hcard & _); [lia|].
  assert (i' = i) as -> by lia.
  rewrite (onDrop_commit s item i (Z.of_nat i + 1) card) by (done || lia).
  split; [|done].
  cbn [outlines setDragOverIndex setDraggedItem addMultipleOutlines
       set_outlines].
  unfold moveItem. rewrite Hcard.
  replace (Z.to_nat (Z.of_nat i + 1)) with (S i) by lia.
  destruct (Nat.ltb_spec i (S i)); [|lia].
  replace (S i - 1)%nat with i by lia.
  pose proof (lookup_lt_Some _ _ _ Hcard) as Hlt.
  rewrite delete_take_drop.
  rewrite take_app_le, drop_app_le by (rewrite length_take; lia).
  rewrite take_take, Nat.min_id.
  rewrite drop_ge by (rewrite length_take; lia). simpl.
  rewrite take_drop_middle by done. by apply renumberFrom_contiguous.
Qed.

(** X4. Picking a card up and dropping it before any hover: the timeout
    of [onDragStart] has set the hover index to the card's own index (or
    to -1 for a card that is not in the list), and the drop that follows
    in the same render changes nothing. *)
Theorem pick_up_and_drop s card :
  onDrop (onDragStart_timeout s card (onDragStart card s))
  = onDragStart_timeout s card (onDragStart card s).
Proof.
  apply (onDrop_abort _ card
           (findIndex (λ c, id c = id card) (outlines s)));
    [done | done | by right].
Qed.

End MoreMoves.

(** ** A whole gesture: where the card lands relative to the hovered one *)

Section Gesture.
Import JsArray CardList Reference.
Implicit Types (cards : list OutlineCard) (s : App).

Lemma findIndex_NoDup cards (i : nat) card :
  NoDup (id <$> cards) → cards !! i = Some card →
  findIndex (λ c, id c = id card) cards = Z.of_nat i.
Proof.
  intros Hnd Hi. apply (findIndex_at _ _ i card); [done | done |].
  intros j y Hj Hlt Heq.
  assert (j = i); [|lia].
  apply (NoDup_lookup _ _ _ (id card) Hnd).
  - by rewrite list_lookup_fmap, Hj, <- Heq.
  - by rewrite list_lookup_fmap, Hi.
Qed.

(** The card sits at the target slot of [moveItem], with the cards of the
    list without it before and after. *)
Lemma moveItem_lookup cards (i j : nat) d :
  cards !! i = Some d →
  let rest := delete i cards in
  let t := if (i <? j)%nat then (j - 1)%nat else j in
  (t ≤ length rest)%nat →
  moveItem i j cards !! t = Some d
  ∧ moveItem i j cards !! S t = rest !! t
  ∧ ∀ p, (p < t)%nat → moveItem i j cards !! p = rest !! p.
Proof.
  intros Hd rest t Ht. unfold moveItem. rewrite Hd. fold rest. fold t.
  assert (length (take t rest) = t) as Hlen by (rewrite length_take; lia).
  split_and!.
  - rewrite lookup_app_r by lia. by rewrite Hlen, Nat.sub_diag.
  - rewrite lookup_app_r by lia. rewrite Hlen.
    replace (S t - t)%nat with 1%nat by lia. simpl.
    rewrite lookup_drop. f_equal. lia.
  - intros p Hp. rewrite lookup_app_l by lia. by rewrite lookup_take_lt.
Qed.

Lemma lookup_identity cards (p : nat) card :
  cards !! p = Some card →
  (identity <$> cards) !! p = Some (identity card).
Proof. intros Hp. by rewrite list_lookup_fmap, Hp. Qed.

(** X5. One gesture over a list without duplicate ids: card [d] is picked
    up, held over another card [h], and dropped. If the pointer was in the
    upper half of [h], then [d] ends up immediately before [h]; otherwise
    immediately after it. *)
Theorem drop_lands_next_to_hovered s e (i k : nat) d h :
  NoDup (id <$> outlines s) →
  outlines s !! i = Some d →
  outlines s !! k = Some h →
  i ≠ k →
  let after := identity <$> outlines
                 (onDrop (onDragOver e (Z.of_nat k) (onDragStart d s))) in
  ∃ p : nat,
    if Qlt_le_dec (clientY e - rect_top e) (rect_height e / 2)
    then after !! p = Some (identity d) ∧ after !! S p = Some (identity h)
    else after !! p = Some (identity h) ∧ after !! S p = Some (identity d).
Proof.
  intros Hnd Hd Hh Hik after. subst after.
  pose proof (lookup_lt_Some _ _ _ Hd) as Hilt.
  pose proof (lookup_lt_Some _ _ _ Hh) as Hklt.
  pose proof (findIndex_NoDup _ _ _ Hnd Hd) as Hfound.
  unfold onDragOver. cbn [draggedItem onDragStart setDraggedItem].
  destruct (Qlt_le_dec _ _) as [Hupper | Hlower].
  - (* upper half: hover index k *)
    rewrite (onDrop_commit _ d i (Z.of_nat k) d) by (done || lia).
    cbn [outlines setDragOverIndex setDraggedItem addMultipleOutlines
         set_outlines onDragStart].
    rewrite renumberFrom_identity, Nat2Z.id.
    destruct (moveItem_lookup (outlines s) i k d Hd) as (Ht & HSt & _).
    { rewrite length_delete by eauto. destruct (Nat.ltb_spec i k); lia. }
    destruct (Nat.ltb_spec i k) as [Hlt | Hge].
    + exists (k - 1)%nat. split; [by apply lookup_identity|].
      apply lookup_identity. rewrite HSt.
      rewrite list_lookup_delete_ge by lia.
      by replace (S (k - 1)) with k by lia.
    + exists k. split; [by apply lookup_identity|].
      apply lookup_identity. rewrite HSt.
      by rewrite list_lookup_delete_lt by lia.
  - (* lower half: hover index k + 1 *)
    destruct (decide (i = S k)) as [-> | Hne].
    + (* the slot after [h] is the card's own: nothing is committed *)
      rewrite (onDrop_abort _ d (Z.of_nat k + 1));
        [| done | done
         | right;
           cbn [outlines setDragOverIndex setDraggedItem onDragStart];
           rewrite Hfound; lia].
      cbn [outlines setDragOverIndex setDraggedItem onDragStart].
      exists k. split; by apply lookup_identity.
    + rewrite (onDrop_commit _ d i (Z.of_nat k + 1) d) by (done || lia).
      cbn [outlines setDragOverIndex setDraggedItem addMultipleOutlines
           set_outlines onDragStart].
      rewrite renumberFrom_identity.
      replace (Z.to_nat (Z.of_nat k + 1)) with (S k) by lia.
      destruct (moveItem_lookup (outlines s) i (S k) d Hd)
        as (Ht & _ & Hbefore).
      { rewrite length_delete by eauto. destruct (Nat.ltb_spec i (S k)); lia. }
      destruct (Nat.ltb_spec i (S k)) as [Hlt | Hge].
      * exists (k - 1)%nat.
        replace (S (k - 1)) with (S k - 1)%nat by lia.
        split; [|by apply lookup_identity].
        apply lookup_identity. rewrite Hbefore by lia.
        rewrite list_lookup_delete_ge by lia.
        by replace (S (k - 1)) with k by lia.
      * exists k. split; [|by apply lookup_identity].
        apply lookup_identity. rewrite Hbefore by lia.
        by rewrite list_lookup_delete_lt by lia.
Qed.

End Gesture.

(** ** Editing, deleting and adding cards at the edges *)

Section Edges.
Import JsArray CardList CardListStyles Reference.
Implicit Types (cards : list OutlineCard) (s : App).

(** X6. [onCardUpdate] with an id that no card carries commits the list
    as it was; the edit state is cleared all the same. *)
Theorem update_of_missing_card s id0 newTitle :
  id0 ∉ id <$> outlines s →
  outlines (onCardUpdate id0 newTitle s) = outlines s
  ∧ editingCard (onCardUpdate id0 newTitle s) = None
  ∧ selectedCard (onCardUpdate id0 newTitle s) = None
  ∧ editText (onCardUpdate id0 newTitle s) = "".
Proof.
  intros Hnot. split; [|done].
  cbn [onCardUpdate outlines setEditText setSelectedCard setEditingCard
       addMultipleOutlines set_outlines].
  rewrite <- (list_fmap_id (outlines s)) at 2.
  apply list_fmap_ext. intros i card Hi.
  rewrite decide_False; [done|].
  intros <-. apply Hnot. apply list_elem_of_fmap_2.
  by apply list_elem_of_lookup_2 in Hi.
Qed.

(** X7. Renaming a card and renaming it back restores the list: when
    every card with the id has the title [oldTitle], updating the id to any
    title and then to [oldTitle] again commits the list as it was. *)
Theorem update_round_trip s id0 oldTitle newTitle :
  (∀ card, card ∈ outlines s → id card = id0 → title card = oldTitle) →
  outlines (onCardUpdate id0 oldTitle (onCardUpdate id0 newTitle s))
  = outlines s.
Proof.
  intros Hold.
  cbn [onCardUpdate outlines setEditText setSelectedCard setEditingCard
       addMultipleOutlines set_outlines].
  rewrite <- list_fmap_compose.
  rewrite <- (list_fmap_id (outlines s)) at 2.
  apply list_fmap_ext. intros i card Hi. simpl.
  apply list_elem_of_lookup_2 in Hi.
  destruct (decide (id card = id0)) as [Heq | Hne].
  - simpl. rewrite decide_True by done.
    destruct card as [cid ct co]. unfold with_title. simpl in *.
    f_equal. symmetry. by apply (Hold (mkCard cid ct co)).
  - by rewrite decide_False.
Qed.

(** X8. After [onCardDelete] no card carries the id, however many did
    before; the cards that remain are the others, in their order, and
    their [order] fields are contiguous. *)
Theorem delete_removes_every_match s id0 :
  (id0 ∉ id <$> outlines (onCardDelete id0 s))
  ∧ identity <$> outlines (onCardDelete id0 s)
    = identity <$> filter (λ card, id card ≠ id0) (outlines s)
  ∧ contiguous (outlines (onCardDelete id0 s)).
Proof.
  cbn [onCardDelete outlines addMultipleOutlines set_outlines].
  rewrite mapi_renumber.
  assert (identity <$> renumberFrom 1
            (filter (λ card, id card ≠ id0) (outlines s))
          = identity <$> filter (λ card, id card ≠ id0) (outlines s))
    as Hident by apply renumberFrom_identity.
  split_and!; [| done | rewrite <- mapi_renumber; apply contiguous_renumber].
  intros Hin.
  assert (id0 ∈ fst <$> (identity <$> renumberFrom 1
            (filter (λ card, id card ≠ id0) (outlines s)))) as Hin'
    by (by rewrite <- list_fmap_compose).
  rewrite Hident, <- list_fmap_compose in Hin'.
  apply list_elem_of_fmap in Hin' as (card & Hid & Hcard).
  apply list_elem_of_filter in Hcard as [Hne _]. by apply Hne.
Qed.

(** X9. Deleting an id that no card carries leaves a list with contiguous
    [order] fields exactly as it was. *)
Theorem delete_of_missing_card s id0 :
  id0 ∉ id <$> outlines s →
  contiguous (outlines s) →
  outlines (onCardDelete id0 s) = outlines s.
Proof.
  intros Hnot Hc.
  cbn [onCardDelete outlines addMultipleOutlines set_outlines].
  rewrite filter_all.
  - rewrite mapi_renumber. by apply renumberFrom_contiguous.
  - apply Forall_forall. intros card Hcard Heq. apply Hnot.
    rewrite <- Heq. by apply list_elem_of_fmap_2.
Qed.

(** X10. Whatever number the anchor is, [onAddCard] adds exactly one card
    and keeps the others in their order with their ids and titles: the new
    card splits the old list at some point [m]. The edit text is emptied
    and the new card has the title that was typed, or "New Section". *)
Theorem add_keeps_the_cards newId index s :
  let before := identity <$> outlines s in
  let after := identity <$> outlines (onAddCard newId index s) in
  length after = S (length before)
  ∧ (∃ m : nat,
       after = take m before ++ (newId, titleOrDefault s) :: drop m before)
  ∧ editText (onAddCard newId index s) = "".
Proof.
  intros before after. subst before after.
  cbn [onAddCard outlines setEditText addMultipleOutlines set_outlines
       editText].
  assert (∀ cards,
            identity <$> ((λ card, with_order card (order card + 1))
                            <$> cards) = identity <$> cards) as Hbump.
  { intros cards. rewrite <- list_fmap_compose.
    by apply list_fmap_ext. }
  destruct index as [i|].
  - rewrite slice_prefix_any, slice_suffix_any.
    set (m := Z.to_nat (relative (Z.of_nat (length (outlines s))) (i + 1))).
    rewrite !fmap_app, Hbump, fmap_take, fmap_drop. simpl.
    split_and!; [| by exists m | done].
    rewrite length_app. simpl. rewrite length_take, length_drop. lia.
  - rewrite fmap_app. simpl.
    split_and!; [| exists (length (identity <$> outlines s)) | done].
    + rewrite length_app. simpl. lia.
    + by rewrite firstn_all, drop_all.
Qed.

(** X11. An anchor at or beyond the length of a contiguous list appends
    the new card with [order = index + 2], which is not its position: the
    committed list is no longer contiguous. *)
Theorem add_beyond_end_breaks_order newId (i : Z) s :
  contiguous (outlines s) →
  Z.of_nat (length (outlines s)) ≤ i →
  outlines (onAddCard newId (Some i) s)
  = outlines s ++ [mkCard newId (titleOrDefault s) (i + 2)]
  ∧ ¬ contiguous (outlines (onAddCard newId (Some i) s)).
Proof.
  intros Hc Hi.
  assert (outlines (onAddCard newId (Some i) s)
          = outlines s ++ [mkCard newId (titleOrDefault s) (i + 2)]) as Heq.
  { cbn [onAddCard outlines setEditText addMultipleOutlines set_outlines].
    rewrite slice_prefix, slice_suffix by lia.
    rewrite take_ge, drop_ge by lia. simpl.
    by replace (i + 1 + 1) with (i + 2) by lia. }
  split; [done|]. rewrite Heq. intros Hc'.
  apply contiguous_lookup
    with (i := length (outlines s))
         (card := mkCard newId (titleOrDefault s) (i + 2)) in Hc'.
  - simpl in Hc'. lia.
  - rewrite lookup_app_r by lia. by rewrite Nat.sub_diag.
Qed.

(** X12. The drop indicator. While a card is dragged over a list of at
    least one card, some rendered card shows a border exactly when the
    hover index is between 0 and the length of the list; the index one
    past the length, which the container's handler can set, shows
    nothing. *)
Theorem indicator_visible s item over :
  draggedItem s = Some item →
  dragOverIndex s = Some over →
  outlines s ≠ [] →
  (∃ (i : nat) style,
     renderedStyles s !! i = Some style ∧ style ≠ NoStyle)
  ↔ 0 ≤ over ≤ Z.of_nat (length (outlines s)).
Proof.
  intros Hitem Hover Hne.
  assert (0 < length (outlines s))%nat as Hpos
    by (destruct (outlines s); [done | simpl; lia]).
  unfold renderedStyles, getDragOverStyles. rewrite Hitem, Hover.
  split.
  - intros (i & style & Hi & Hstyle).
    rewrite lookup_mapi in Hi.
    destruct (outlines s !! i) as [card|] eqn:Hcard; [|done].
    apply lookup_lt_Some in Hcard. simpl in Hi.
    injection Hi as <-. repeat case_decide; [lia | lia | done].
  - intros Hrange.
    destruct (decide (over = Z.of_nat (length (outlines s)))) as [-> | Hlt].
    + exists (length (outlines s) - 1)%nat, BorderBottom.
      rewrite lookup_mapi.
      destruct (lookup_lt_is_Some_2 (outlines s)
                  (length (outlines s) - 1)) as [card ->]; [lia|].
      simpl. split; [|done]. f_equal.
      rewrite decide_False by lia. by rewrite decide_True by lia.
    + exists (Z.to_nat over), BorderTop.
      rewrite lookup_mapi.
      destruct (lookup_lt_is_Some_2 (outlines s) (Z.to_nat over))
        as [card ->]; [lia|].
      simpl. split; [|done]. f_equal. by rewrite decide_True by lia.
Qed.

End Edges.

(** ** Outline generation and project creation: the outcomes *)

Section Outcomes.
Import JsArray CardList CreativeAI Pages.
Implicit Types (s : App).

(** X13. A successful generation replaces the outline list by one card per
    returned title, in the order returned, with [order] 1, 2, ..., n; the
    counter becomes n whatever count was asked for, the prompt stays, and
    the generation flag is down again. The request carried the counter as
    it was before. *)
Theorem generation_success v4 titles s :
  currentAiPrompt s ≠ "" →
  let s' := generateOutline v4 (GenerateResolved 200 (Some titles)) s in
  title <$> outlines s' = titles
  ∧ contiguous (outlines s')
  ∧ noOfCards s' = Z.of_nat (length titles)
  ∧ currentAiPrompt s' = currentAiPrompt s
  ∧ isGenerating s' = false
  ∧ effects s'
    = effects s
      ++ [ CallGenerateCreativePrompt (currentAiPrompt s) (noOfCards s);
           ToastSuccess "Success" "Outlines generated successfully" ].
Proof.
  intros Hprompt s'. subst s'. unfold generateOutline.
  rewrite decide_False by done. rewrite decide_True by done.
  cbn [outlines noOfCards currentAiPrompt isGenerating effects
       setIsGenerating emit setNoOfCards addMultipleOutlines set_outlines].
  split_and!; try done.
  - apply list_eq. intros i. rewrite list_lookup_fmap, lookup_mapi.
    by destruct (titles !! i).
  - apply contiguous_lookup. intros i card. rewrite lookup_mapi.
    destruct (titles !! i); [|done]. by intros [= <-].
  - by rewrite length_mapi.
  - by rewrite <- app_assoc.
Qed.

(** X14. A generation that comes back with a status other than 200, or
    without outlines, leaves the outline list, the prompt and the counter
    as they were, reports one error and lowers the generation flag. *)
Theorem generation_failure v4 status titles s :
  currentAiPrompt s ≠ "" →
  status ≠ 200 ∨ titles = None →
  let s' := generateOutline v4 (GenerateResolved status titles) s in
  outlines s' = outlines s
  ∧ currentAiPrompt s' = currentAiPrompt s
  ∧ noOfCards s' = noOfCards s
  ∧ isGenerating s' = false
  ∧ effects s'
    = effects s
      ++ [ CallGenerateCreativePrompt (currentAiPrompt s) (noOfCards s);
           ToastError "Error"
             "Failed to generate outline. Please try again ." ].
Proof.
  intros Hprompt Hfail s'. subst s'. unfold generateOutline.
  rewrite decide_False by done.
  destruct titles as [ts|].
  - destruct Hfail as [Hstatus | [=]]. rewrite decide_False by done.
    cbn [outlines noOfCards currentAiPrompt isGenerating effects
         setIsGenerating emit].
    by rewrite <- app_assoc.
  - cbn [outlines noOfCards currentAiPrompt isGenerating effects
         setIsGenerating emit].
    by rewrite <- app_assoc.
Qed.

(** X15. With a non-empty outline list [handleGenerate] always ends with
    the generation flag down. When the project was created the prompt and
    the outline list are emptied; when the call rejected, came back with
    another status or without data, both are as they were. *)
Theorem creation_outcomes newId now res s :
  outlines s ≠ [] →
  let s' := handleGenerate newId now res s in
  isGenerating s' = false
  ∧ ((∃ projectId, res = CreateResolved 200 (Some projectId)) →
       outlines s' = [] ∧ currentAiPrompt s' = "")
  ∧ ((∀ projectId, res ≠ CreateResolved 200 (Some projectId)) →
       outlines s' = outlines s ∧ currentAiPrompt s' = currentAiPrompt s).
Proof.
  intros Hne s'. subst s'. unfold handleGenerate.
  rewrite decide_False by (by destruct (outlines s)).
  split_and!.
  - done.
  - intros (projectId & ->). by rewrite decide_True.
  - intros Hfail.
    destruct res as [|status [projectId|]]; [done | | done].
    case_decide as Hstatus; [|done].
    subst status. by destruct (Hfail projectId).
Qed.

(** X16. Once the effect on [outlines.length] has run for the current
    list, on mount or after the length changed, [handleGenerate] submits
    the whole outline list. *)
Theorem synced_counter_submits_all newId now res prev s :
  outlines s ≠ [] →
  match prev with
  | Some p => length (outlines p) ≠ length (outlines s)
  | None => True
  end →
  ∃ rest,
    effects (handleGenerate newId now res (syncNoOfCards prev s))
    = effects s ++ CallCreateProject (currentAiPrompt s) (outlines s) :: rest.
Proof.
  intros Hne Hprev.
  assert (syncNoOfCards prev s
          = setNoOfCards (Z.of_nat (length (outlines s))) s) as ->.
  { unfold syncNoOfCards. destruct prev as [p|]; [|done].
    by rewrite decide_False. }
  unfold handleGenerate.
  cbn [outlines noOfCards currentAiPrompt setNoOfCards].
  rewrite decide_False by (by destruct (outlines s)).
  rewrite slice_prefix by lia. rewrite Nat2Z.id, firstn_all.
  destruct res as [|status [projectId|]]; [| case_decide |];
    cbn [effects setIsGenerating emit resetOutlines set_outlines
         setCurrentAiPrompt setNoOfCards];
    rewrite <- ?app_assoc; simpl; by eexists.
Qed.

(** X17. Round trip through the recent prompts: the record that a
    successful [handleGenerate] hands to [addPrompt], looked up by its id
    in [handleEdit], brings back the whole outline list, the cards beyond
    the counter included, and as prompt the old prompt or, if that was
    empty, the title of the first card; the page shown is the AI page. *)
Theorem saved_prompt_restores newId now projectId prompts s ps :
  outlines s ≠ [] →
  findPrompt prompts newId
  = last (addedPrompts
            (handleGenerate newId now
               (CreateResolved 200 (Some projectId)) s)) →
  outlines (app (handleEdit prompts newId ps)) = outlines s
  ∧ currentAiPrompt (app (handleEdit prompts newId ps)) = promptTitle s
  ∧ renderStep (handleEdit prompts newId ps) = Some StepCreateAI.
Proof.
  intros Hne Hfind.
  assert (addedPrompts
            (handleGenerate newId now
               (CreateResolved 200 (Some projectId)) s)
          = addedPrompts s
            ++ [mkPrompt newId (promptTitle s) (outlines s) now]) as Hadded.
  { unfold handleGenerate, addedPrompts.
    rewrite decide_False by (by destruct (outlines s)).
    rewrite decide_True by done.
    cbn [effects setIsGenerating emit resetOutlines set_outlines
         setCurrentAiPrompt].
    rewrite !omap_app. simpl. by rewrite !app_nil_r. }
  rewrite Hadded, last_snoc in Hfind.
  unfold handleEdit. by rewrite Hfind.
Qed.

(** X18. [handleEdit] with an id that no recent prompt carries only
    reports the error: page, prompt and outline list stay. *)
Theorem edit_of_missing_prompt prompts id0 ps :
  id0 ∉ prompt_id <$> prompts →
  handleEdit prompts id0 ps
  = mkPageState (page ps)
      (emit (ToastError "Error" "Prompt not found .") (app ps)).
Proof.
  intros Hnot. unfold handleEdit, findPrompt.
  destruct (list_find _ prompts) as [[i p]|] eqn:Hfind; [|done].
  apply list_find_Some in Hfind as (Hi & Hid & _).
  destruct Hnot. rewrite <- Hid. apply list_elem_of_fmap_2.
  by apply list_elem_of_lookup_2 in Hi.
Qed.

(** X19. Every choice on the start page other than "template" leads to a
    page that [renderStep] renders: the scratch page for "create-scratch",
    the AI page for anything else; and [handleBack] leads to the start
    page. *)
Theorem choices_render option ps :
  option ≠ "template" →
  renderStep (handleSelectOption option ps)
  = Some (if decide (option = "create-scratch")
          then StepScratchPage else StepCreateAI)
  ∧ renderStep (handleBack (handleSelectOption option ps))
    = Some StepCreatePage.
Proof.
  intros Hne. unfold handleSelectOption.
  rewrite decide_False by done. by case_decide.
Qed.

End Outcomes.

(** ** The auto-save over arbitrary runs *)

Section AutoSaveRuns.
Import Editor EditorProvenance.
Context {Slide : Type}.
Implicit Types (w : World Slide) (r : Render Slide) (t : Z)
  (evs : list (Event Slide)).

Lemma advance_tidy t w : tidy w → tidy (advance t w).
Proof.
  unfold tidy, advance. simpl.
  destruct (timers w) as [|tm [|tm' tms]]; [done | | done].
  intros Href. rewrite filter_cons. by case_decide.
Qed.

Lemma cleanup_tidy w : tidy w → tidy (cleanup w).
Proof. intros Htidy. unfold cleanup. by rewrite clearPending_tidy. Qed.

Lemma effect_tidy r w : tidy w → tidy (effect r w).
Proof.
  intros Htidy. unfold effect. rewrite clearPending_tidy by done.
  by destruct (isEditable r).
Qed.

Lemma step_tidy w ev : tidy w → tidy (step w ev).
Proof.
  intros Htidy. destruct ev as [t r | t | t]; cbn [step];
    auto using advance_tidy, cleanup_tidy, effect_tidy.
Qed.

Lemma run_tidy evs w : tidy w → tidy (run evs w).
Proof.
  revert w. induction evs as [|ev evs IH]; intros w Htidy; [done|].
  apply IH. by apply step_tidy.
Qed.

(** X20. Whatever the commits, waits and unmounts, and whatever their
    times, at most one auto-save timer is pending, and it is the one whose
    handle the ref holds. *)
Theorem at_most_one_timer evs :
  tidy (run evs (@mounted Slide))
  ∧ (length (timers (run evs (@mounted Slide))) ≤ 1)%nat.
Proof.
  assert (tidy (run evs (@mounted Slide))) as Htidy
    by (by apply run_tidy).
  split; [done|]. unfold tidy in Htidy.
  destruct (timers (run evs mounted)) as [|tm [|tm' tms]]; simpl; [lia | lia | done].
Qed.

Lemma clearPending_idle w :
  timers w = [] →
  timers (clearPending w) = [] ∧ calls (clearPending w) = calls w.
Proof.
  intros Hnone. unfold clearPending, clearTimeout.
  destruct (autoSaveTimeoutRef w); simpl; by rewrite ?Hnone.
Qed.

Lemma step_read_only w ev :
  (∀ t r, ev = Commit t r → isEditable r = false) →
  timers w = [] →
  timers (step w ev) = [] ∧ calls (step w ev) = calls w.
Proof.
  intros Hro Hnone.
  assert (timers (advance (match ev with
                           | Commit t _ | Idle t | Unmount t => t
                           end) w) = []
          ∧ calls (advance (match ev with
                            | Commit t _ | Idle t | Unmount t => t
                            end) w) = calls w) as [Ht Hc].
  { unfold advance. simpl. by rewrite Hnone. }
  destruct ev as [t r | t | t]; cbn [step]; [| done |].
  - unfold effect, cleanup. rewrite (Hro t r eq_refl).
    destruct (clearPending_idle _ Ht) as [Ht' Hc'].
    destruct (clearPending_idle _ Ht') as [Ht'' Hc''].
    by rewrite Ht'', Hc'', Hc'.
  - unfold cleanup. destruct (clearPending_idle _ Ht) as [Ht' Hc'].
    by rewrite Ht', Hc'.
Qed.

Lemma run_read_only evs w :
  allReadOnly evs → timers w = [] →
  timers (run evs w) = [] ∧ calls (run evs w) = calls w.
Proof.
  revert w. induction evs as [|ev evs IH]; intros w Hro Hnone; [done|].
  destruct (step_read_only w ev) as [Ht Hc]; [|done|].
  { intros t r ->. apply (Hro t r). by left. }
  cbn [run foldl]. fold (run evs (step w ev)).
  destruct (IH (step w ev)) as [Ht' Hc']; [|done|].
  { intros t r Hin. apply (Hro t r). by right. }
  by rewrite Ht', Hc'.
Qed.

(** X21. A read-only editor never saves: when every committed render has
    [isEditable] false, no request is made and no timer is left pending,
    however the slides change and however long one waits. *)
Theorem read_only_never_saves evs :
  allReadOnly evs →
  calls (run evs (@mounted Slide)) = []
  ∧ timers (run evs (@mounted Slide)) = [].
Proof.
  intros Hro. destruct (run_read_only evs mounted Hro eq_refl) as [Ht Hc].
  by rewrite Ht, Hc.
Qed.

Lemma insertTimer_elem (tm tm0 : Timer Slide) q :
  tm ∈ insertTimer tm0 q → tm = tm0 ∨ tm ∈ q.
Proof.
  induction q as [|tm' q IH]; simpl.
  - intros ->%list_elem_of_singleton. by left.
  - destruct (due tm0 <? due tm');
      [| destruct ((due tm0 =? due tm') && (handle tm0 <? handle tm')%positive)];
      rewrite !elem_of_cons; intros [Hin | Hin]; auto.
    destruct (IH Hin); auto.
Qed.

Lemma fireOrder_elem (tm : Timer Slide) q : tm ∈ fireOrder q → tm ∈ q.
Proof.
  induction q as [|tm' q IH]; [done|]. simpl.
  intros [-> | Hin]%insertTimer_elem; [by left | right; auto].
Qed.

Lemma fired_calls_elem (c : SaveCall Slide) ready cs :
  c ∈ foldl (λ cs tm, saveSlides (due tm) (closure tm) cs) cs ready →
  c ∈ cs
  ∨ ∃ tm, tm ∈ ready
          ∧ isEditable (closure tm) = true
          ∧ project (closure tm) = Some (projectId c)
          ∧ payload c = slides (closure tm)
          ∧ firedAt c = due tm.
Proof.
  revert cs. induction ready as [|tm ready IH]; intros cs; [by left|].
  simpl. intros [Hin | (tm' & Hin & Hrest)]%IH.
  - unfold saveSlides in Hin.
    destruct (isEditable (closure tm)) eqn:Hed; [|by left].
    destruct (project (closure tm)) as [pid|] eqn:Hproj; [|by left].
    apply elem_of_app in Hin as [Hin | ->%list_elem_of_singleton];
      [by left|].
    right. exists tm. split; [by left | done].
  - right. exists tm'. split; [by right | done].
Qed.

Lemma timerFrom_mono seen seen' (tm : Timer Slide) :
  seen ⊆ seen' → timerFrom seen tm → timerFrom seen' tm.
Proof. intros Hsub (t & Hin & Hdue). exists t. split; [auto | done]. Qed.

Lemma callFrom_mono seen seen' (c : SaveCall Slide) :
  seen ⊆ seen' → callFrom seen c → callFrom seen' c.
Proof.
  intros Hsub (t & r & Hin & Hrest). exists t, r. split; [auto | done].
Qed.

Lemma advance_provenance seen t w :
  Forall (timerFrom seen) (timers w) →
  Forall (callFrom seen) (calls w) →
  Forall (timerFrom seen) (timers (advance t w))
  ∧ Forall (callFrom seen) (calls (advance t w))
  ∧ t ≤ now (advance t w).
Proof.
  intros Htimers Hcalls. unfold advance. simpl. split_and!; [| | lia].
  - apply Forall_forall. intros tm [_ Hin]%list_elem_of_filter.
    by apply (proj1 (Forall_forall _ _) Htimers).
  - apply Forall_forall.
    intros c [Hin | (tm & Hin & Hed & Hproj & Hpay & Hat)]%fired_calls_elem.
    + by apply (proj1 (Forall_forall _ _) Hcalls).
    + apply fireOrder_elem, list_elem_of_filter in Hin as [_ Hin].
      destruct (proj1 (Forall_forall _ _) Htimers tm Hin) as (t0 & Hc & Hd).
      exists t0, (closure tm). rewrite Hat. done.
Qed.

Lemma clearPending_provenance seen w :
  Forall (timerFrom seen) (timers w) →
  Forall (timerFrom seen) (timers (clearPending w))
  ∧ calls (clearPending w) = calls w
  ∧ now (clearPending w) = now w.
Proof.
  intros Htimers. unfold clearPending, clearTimeout.
  destruct (autoSaveTimeoutRef w); simpl; [|done].
  split; [|done]. apply Forall_forall.
  intros tm [_ Hin]%list_elem_of_filter.
  by apply (proj1 (Forall_forall _ _) Htimers).
Qed.

Lemma step_provenance seen w ev :
  Forall (timerFrom seen) (timers w) →
  Forall (callFrom seen) (calls w) →
  Forall (timerFrom (seen ++ [ev])) (timers (step w ev))
  ∧ Forall (callFrom (seen ++ [ev])) (calls (step w ev)).
Proof.
  intros Htimers Hcalls.
  assert (seen ⊆ seen ++ [ev]) as Hsub
    by (intros x Hx; apply elem_of_app; by left).
  assert (∀ t, Forall (timerFrom (seen ++ [ev])) (timers (cleanup (advance t w)))
               ∧ Forall (callFrom (seen ++ [ev])) (calls (cleanup (advance t w)))
               ∧ t ≤ now (cleanup (advance t w))) as Hclean.
  { intros t.
    destruct (advance_provenance seen t w Htimers Hcalls) as (Ht & Hc & Hn).
    destruct (clearPending_provenance seen _ Ht) as (Ht' & Hc' & Hn').
    unfold cleanup. rewrite Hc', Hn'. split_and!; [| | done].
    - eapply Forall_impl; [exact Ht' | intros tm; by apply timerFrom_mono].
    - eapply Forall_impl; [exact Hc | intros c; by apply callFrom_mono]. }
  destruct ev as [t r | t | t]; cbn [step].
  - destruct (Hclean t) as (Ht & Hc & Hn).
    destruct (clearPending_provenance _ _ Ht) as (Ht' & Hc' & Hn').
    unfold effect. destruct (isEditable r).
    + cbn [setTimeout set_ref timers calls]. rewrite Hc'. split; [|done].
      apply Forall_app. split; [done|].
      constructor; [|constructor].
      exists t. simpl. split; [|lia].
      apply elem_of_app. right. by left.
    + by rewrite Hc'.
  - destruct (advance_provenance seen t w Htimers Hcalls) as (Ht & Hc & _).
    split.
    + eapply Forall_impl; [exact Ht | intros tm; by apply timerFrom_mono].
    + eapply Forall_impl; [exact Hc | intros c; by apply callFrom_mono].
  - destruct (Hclean t) as (Ht & Hc & _). done.
Qed.

Lemma run_snoc evs ev w : run (evs ++ [ev]) w = step (run evs w) ev.
Proof. unfold run. by rewrite foldl_app. Qed.

Lemma run_provenance evs :
  Forall (timerFrom evs) (timers (run evs (@mounted Slide)))
  ∧ Forall (callFrom evs) (calls (run evs (@mounted Slide))).
Proof.
  induction evs as [|ev evs [Ht Hc]] using rev_ind.
  - split; constructor.
  - rewrite run_snoc. by apply step_provenance.
Qed.

(** X22. Every request the auto-save makes carries the project id and the
    slides of a render that was committed in the run with [isEditable]
    true and a project, and it is made no earlier than a quiet period
    after that commit: nothing is sent that was never the state, nothing
    without a project, and nothing sooner than 2000 ms after the change. *)
Theorem saves_come_from_commits evs (c : SaveCall Slide) :
  c ∈ calls (run evs (@mounted Slide)) → callFrom evs c.
Proof.
  intros Hin. destruct (run_provenance evs) as [_ Hcalls].
  by apply (proj1 (Forall_forall _ _) Hcalls).
Qed.

End AutoSaveRuns.

(** ** The handlers around the slide store *)

Section SlideHandlers.
Import EditorHandlers.
Context {Layout Content : Type}.
Implicit Types (item : HoverItem) (ed hasRef : bool).

(** X23. Hovering settles: after one [hover] over the slide at [index] the
    item carries that index whenever a reorder was asked for, and a second
    [hover] over the same slide asks for nothing and leaves the item as it
    is. The first [hover] asks for at most the one reorder from the item's
    index to [index]. *)
Theorem hover_settles hasRef ed index item :
  let first := hover (Layout := Layout) (Content := Content)
                 hasRef ed index item in
  hover (Layout := Layout) (Content := Content) hasRef ed index first.1
  = (first.1, [])
  ∧ (first.2 = []
     ∨ first.2 = [ReorderSlides (hover_index item) index]
       ∧ hover_index first.1 = index).
Proof.
  intros first. subst first. unfold hover, moveSlide.
  destruct hasRef, ed; simpl; try (split; [done | by left]).
  destruct (decide (hover_type item = "SLIDE" ∧ hover_index item ≠ index))
    as [[Htype Hne] | Hnot]; simpl.
  - split; [|by right]. by rewrite decide_False by tauto.
  - split; [|by left]. by rewrite decide_False.
Qed.

(** X24. No handler of the editor reaches the slide store in read-only
    mode: whenever [moveSlide], [handleDrop], [handleDelete],
    [handleContentChange] or [hover] makes a store call, [isEditable] is
    true; and [handleDrop] ignores an item that is neither a layout nor a
    slide with an index. *)
Theorem store_calls_need_editable ed hasRef (a b : Z) newId
    (dropped : DropItem Layout) slideId contentId (content : Content) item :
  (moveSlide (Layout := Layout) (Content := Content) ed a b ≠ [] →
     ed = true)
  ∧ (handleDrop (Content := Content) ed newId dropped b ≠ [] →
       ed = true
       ∧ (drop_type dropped = "layout"
          ∨ drop_type dropped = "SLIDE" ∧ is_Some (drop_index dropped)))
  ∧ (handleDelete (Layout := Layout) (Content := Content) ed slideId ≠ [] →
       ed = true)
  ∧ (handleContentChange (Layout := Layout) ed slideId contentId content
       ≠ [] → ed = true)
  ∧ ((hover (Layout := Layout) (Content := Content) hasRef ed a item).2
       ≠ [] → ed = true).
Proof.
  unfold moveSlide, handleDrop, handleDelete, handleContentChange, hover,
    moveSlide.
  destruct ed; simpl; split_and!; try done.
  - intros Hcall. split; [done|].
    destruct (decide (drop_type dropped = "layout")); [by left|].
    destruct (drop_index dropped) as [index|]; [|done].
    destruct (decide (drop_type dropped = "SLIDE")); [|done].
    right. eauto.
  - by destruct hasRef.
Qed.

End SlideHandlers.

(** ** The further properties on sample data *)

Section MoreScenarios.
Import JsArray CardList CardListStyles CreativeAI Pages Reference.
Import Editor EditorProvenance Samples MoreSamples.

Lemma drop_at_container_end :
  outlines (onDrop a_over_end)
  = [mkCard "b" "Body" 1; mkCard "c" "Close" 2; mkCard "a" "Intro" 3].
Proof.
  rewrite (drop_beyond_end_moves_last a_over_end card_a 0 card_a 4);
    [reflexivity | reflexivity | reflexivity | reflexivity | reflexivity
    | discriminate].
Defined.

Lemma drop_b_on_its_lower_half :
  outlines (onDrop b_over_b) = outlines b_over_b
  ∧ draggedItem (onDrop b_over_b) = None
  ∧ dragOverIndex (onDrop b_over_b) = None.
Proof.
  apply (drop_on_own_lower_half b_over_b card_b 1);
    reflexivity.
Defined.

Lemma drop_c_before_a :
  ∃ p : nat,
    (identity <$> outlines (onDrop c_over_a)) !! p
    = Some ("c", "Close")
    ∧ (identity <$> outlines (onDrop c_over_a)) !! S p
      = Some ("a", "Intro").
Proof.
  refine (drop_lands_next_to_hovered abc upperHalf 2 0 card_c card_a
            _ eq_refl eq_refl _).
  - apply (bool_decide_unpack _). vm_compute. exact I.
  - discriminate.
Defined.

Lemma update_unknown_card :
  outlines (onCardUpdate "zz" "Main part" editing_b) = outlines editing_b
  ∧ editingCard (onCardUpdate "zz" "Main part" editing_b) = None
  ∧ selectedCard (onCardUpdate "zz" "Main part" editing_b) = None
  ∧ editText (onCardUpdate "zz" "Main part" editing_b) = "".
Proof.
  apply update_of_missing_card.
  apply (bool_decide_unpack _). vm_compute. exact I.
Defined.

Lemma rename_b_and_back :
  outlines (onCardUpdate "b" "Body" (onCardUpdate "b" "Main part" abc))
  = outlines abc.
Proof.
  apply update_round_trip. intros card Hin Hid.
  apply elem_of_cons in Hin as [-> | Hin]; [discriminate Hid|].
  apply elem_of_cons in Hin as [-> | Hin]; [reflexivity|].
  apply elem_of_cons in Hin as [-> | Hin]; [discriminate Hid|].
  by apply elem_of_nil in Hin.
Defined.

Lemma delete_unknown_card :
  outlines (onCardDelete "zz" abc) = outlines abc.
Proof.
  apply delete_of_missing_card.
  - apply (bool_decide_unpack _). vm_compute. exact I.
  - reflexivity.
Defined.

Lemma add_after_index_5 :
  outlines (onAddCard "new" (Some 5) xy)
  = outlines xy ++ [mkCard "new" "New Section" 7]
  ∧ ¬ contiguous (outlines (onAddCard "new" (Some 5) xy)).
Proof.
  apply (add_beyond_end_breaks_order "new" 5 xy);
    [reflexivity | discriminate].
Defined.

Lemma indicator_over_b :
  ∃ (i : nat) style,
    renderedStyles a_over_b !! i = Some style ∧ style ≠ NoStyle.
Proof.
  apply (indicator_visible a_over_b card_a 2);
    [reflexivity | reflexivity | discriminate | split; discriminate].
Defined.

Lemma three_titles_generated :
  let s' := generateOutline idOf (GenerateResolved 200 (Some threeTitles))
              asked in
  title <$> outlines s' = threeTitles
  ∧ contiguous (outlines s')
  ∧ noOfCards s' = 3
  ∧ currentAiPrompt s' = "Quarterly review"
  ∧ isGenerating s' = false
  ∧ effects s'
    = [ CallGenerateCreativePrompt "Quarterly review" 0;
        ToastSuccess "Success" "Outlines generated successfully" ].
Proof. apply (generation_success idOf threeTitles asked). discriminate. Defined.

Lemma generation_status_500 :
  let s' := generateOutline idOf (GenerateResolved 500 (Some threeTitles))
              asked in
  outlines s' = []
  ∧ currentAiPrompt s' = "Quarterly review"
  ∧ noOfCards s' = 0
  ∧ isGenerating s' = false
  ∧ effects s'
    = [ CallGenerateCreativePrompt "Quarterly review" 0;
        ToastError "Error"
          "Failed to generate outline. Please try again ." ].
Proof.
  apply (generation_failure idOf 500 (Some threeTitles) asked);
    [discriminate | left; discriminate].
Defined.

Lemma creation_from_ready :
  isGenerating
    (handleGenerate "n1" "2025-01-01T00:00:00.000Z" CreateRejected ready)
  = false
  ∧ outlines
      (handleGenerate "n1" "2025-01-01T00:00:00.000Z" CreateRejected ready)
    = outlines ready.
Proof.
  destruct (creation_outcomes "n1" "2025-01-01T00:00:00.000Z"
              CreateRejected ready) as (Hflag & _ & Hkept); [discriminate|].
  split; [exact Hflag|]. apply Hkept. discriminate.
Defined.

Lemma mounted_page_submits_all :
  ∃ rest,
    effects (handleGenerate "n1" "2025-01-01T00:00:00.000Z" CreateRejected
               (syncNoOfCards None ready))
    = effects ready
      ++ CallCreateProject "Quarterly review" [card_x; card_y; card_z]
         :: rest.
Proof.
  apply (synced_counter_submits_all "n1" "2025-01-01T00:00:00.000Z"
           CreateRejected None ready); [discriminate | exact I].
Defined.

Lemma saved_record_restores :
  outlines (app (handleEdit [savedRecord] "n1" startPage))
  = [card_x; card_y; card_z]
  ∧ currentAiPrompt (app (handleEdit [savedRecord] "n1" startPage))
    = "Quarterly review"
  ∧ renderStep (handleEdit [savedRecord] "n1" startPage)
    = Some StepCreateAI.
Proof.
  apply (saved_prompt_restores "n1" "2025-01-01T00:00:00.000Z" "p1"
           [savedRecord] ready startPage); [discriminate | reflexivity].
Defined.

Lemma edit_unknown_prompt :
  handleEdit [savedRecord] "n2" startPage
  = mkPageState "create"
      (emit (ToastError "Error" "Prompt not found .") initialApp).
Proof.
  apply (edit_of_missing_prompt [savedRecord] "n2" startPage).
  apply (bool_decide_unpack _). vm_compute. exact I.
Defined.

Lemma scratch_choice_renders :
  renderStep (handleSelectOption "create-scratch" startPage)
  = Some StepScratchPage
  ∧ renderStep (handleBack (handleSelectOption "create-scratch" startPage))
    = Some StepCreatePage.
Proof. apply (choices_render "create-scratch" startPage). discriminate. Defined.

Lemma read_only_run_is_silent :
  calls (run readOnlyRun mounted) = []
  ∧ timers (run readOnlyRun mounted) = [].
Proof.
  apply read_only_never_saves. intros t r Hin.
  apply elem_of_cons in Hin as [Heq | Hin]; [by injection Heq as -> ->|].
  apply elem_of_cons in Hin as [Heq | Hin]; [by injection Heq as -> ->|].
  apply elem_of_cons in Hin as [Heq | Hin]; [discriminate Heq|].
  by apply elem_of_nil in Hin.
Defined.

Lemma burst_request_comes_from_a_commit :
  callFrom (commits burst ++ [Idle 5000])
    (mkSaveCall 2700 "deck" [1%nat; 2%nat; 3%nat]).
Proof.
  apply saves_come_from_commits. vm_compute. apply list_elem_of_here.
Defined.

End MoreScenarios.
